(** * dss_server: nearest-water distance and tiered recommendation

    A shallow embedding of [dss_server.py]: the vertex-average centroid of a
    GeoJSON polygon, the haversine great-circle distance, the linear scan
    for the nearest water body, the four-tier recommendation and the batch
    endpoint.

    Numbers.  Python floats are read as real numbers ([R]); the one float
    the program uses that is not a real, [float('inf')], is the extra
    element [Inf] of [distance].  Rounding, NaN and signed zeros are
    therefore outside this development.  In particular the quantity [a] of
    line 58 never leaves [0, 1] here, while its double can exceed 1 by a
    rounding error and make [math.sqrt(1 - a)] raise: what is stated of the
    scan, of the recommendation and of the batch is therefore stated for the
    runs in which [haversine] returns, as a hypothesis.

    Exceptions.  Every Python operation that can raise on the values
    modelled here returns a [result]; [Raise] carries the exception class.

    Globals.  [fra_data] and [water_body_locations] are written once by
    [load_data] and only read afterwards; the query functions take them as a
    [store] argument. *)

From Stdlib Require Import Reals Lra Lia Ascii.
From stdpp Require Import base option list gmap strings.

Open Scope R_scope.

(** ** Exceptions *)

Inductive exn : Set := IndexError | TypeError | ValueError.

Inductive result (A : Type) : Type :=
| Ok (a : A)
| Raise (e : exn).
Arguments Ok {A} a.
Arguments Raise {A} e.

#[global] Instance result_ret : MRet result := λ A a, Ok a.
#[global] Instance result_bind : MBind result :=
  λ A B f r, match r with Ok a => f a | Raise e => Raise e end.

(** A [for] loop over a list whose body may raise: the state is threaded
    from left to right and the first exception ends the loop. *)
Fixpoint for_each {A S : Type} (body : S → A → result S) (l : list A) (s : S)
  : result S :=
  match l with
  | [] => Ok s
  | x :: l' => s' ← body s x; for_each body l' s'
  end.

(** ** The [math] module *)

Definition R_earth : R := 6371.

(** [math.radians] *)
Definition radians (x : R) : R := x * (PI / 180).

(** [math.sqrt]: a negative argument is a [ValueError] (math domain error). *)
Definition math_sqrt (x : R) : result R :=
  if Rle_dec 0 x then Ok (sqrt x) else Raise ValueError.

(** [math.atan2 y x]: the angle of the point [(x, y)], in (-PI, PI]. *)
Definition atan2 (y x : R) : R :=
  if Rlt_dec 0 x then atan (y / x)
  else if Rlt_dec x 0 then
    if Rle_dec 0 y then atan (y / x) + PI else atan (y / x) - PI
  else if Rlt_dec 0 y then PI / 2
  else if Rlt_dec y 0 then - (PI / 2)
  else 0.

(** ** haversine (lines 53-60) *)

(** The quantity [a] of line 58, on arguments already in radians. *)
Definition hav (lon1 lat1 lon2 lat2 : R) : R :=
  let dlon := lon2 - lon1 in
  let dlat := lat2 - lat1 in
  sin (dlat / 2) ^ 2 + cos lat1 * cos lat2 * sin (dlon / 2) ^ 2.

Definition haversine (lon1 lat1 lon2 lat2 : R) : result R :=
  let lon1 := radians lon1 in
  let lat1 := radians lat1 in
  let lon2 := radians lon2 in
  let lat2 := radians lat2 in
  let a := hav lon1 lat1 lon2 lat2 in
  sa ← math_sqrt a;
  sb ← math_sqrt (1 - a);
  let c := 2 * atan2 sa sb in
  Ok (R_earth * c).

(** ** GeoJSON coordinates

    The value under ["coordinates"]: arrays nested to any depth with numbers
    at the leaves. *)

#[warnings="-register-all"]
Inductive coords : Type :=
| Num (x : R)
| Arr (items : list coords).

(** [c[0]] *)
Definition index0 (c : coords) : result coords :=
  match c with
  | Arr (x :: _) => Ok x
  | Arr [] => Raise IndexError
  | Num _ => Raise TypeError
  end.

(** [isinstance(c, list)] *)
Definition is_list (c : coords) : bool :=
  match c with Arr _ => true | Num _ => false end.

(** [for x in c]: the items iterated over. *)
Definition iter (c : coords) : result (list coords) :=
  match c with
  | Arr items => Ok items
  | Num _ => Raise TypeError
  end.

(** [lon, lat = c] *)
Definition unpack2 (c : coords) : result (coords * coords) :=
  match c with
  | Arr [a; b] => Ok (a, b)
  | Arr _ => Raise ValueError
  | Num _ => Raise TypeError
  end.

(** [s += c] with [s] a number. *)
Definition add_num (s : R) (c : coords) : result R :=
  match c with
  | Num x => Ok (s + x)
  | Arr _ => Raise TypeError
  end.

(** Truth value of [c] in a condition: an empty array and the number zero
    are false. *)
Definition truthy (c : coords) : bool :=
  match c with
  | Arr [] => false
  | Arr (_ :: _) => true
  | Num x => if Req_dec_T x 0 then false else true
  end.

(** ** find_polygon_centroid (lines 28-51) *)

(** [lon_sum], [lat_sum], [num_points] *)
Record sums : Type := { lon_sum : R; lat_sum : R; num_points : nat }.

(** The body of the innermost loop: [for lon, lat in ring]. *)
Definition add_vertex (s : sums) (v : coords) : result sums :=
  '(lon, lat) ← unpack2 v;
  lon_sum' ← add_num (lon_sum s) lon;
  lat_sum' ← add_num (lat_sum s) lat;
  Ok {| lon_sum := lon_sum'; lat_sum := lat_sum';
        num_points := S (num_points s) |}.

(** [for ring in ...: for lon, lat in ring: ...] *)
Definition add_ring (s : sums) (ring : coords) : result sums :=
  vs ← iter ring; for_each add_vertex vs s.

(** [for part in coords: for ring in part: ...] *)
Definition add_part (s : sums) (part : coords) : result sums :=
  rings ← iter part; for_each add_ring rings s.

Definition find_polygon_centroid (c : coords) : result (option (R * R)) :=
  let s0 := {| lon_sum := 0; lat_sum := 0; num_points := 0 |} in
  c0 ← index0 c;
  c00 ← index0 c0;
  c000 ← index0 c00;
  s ← (if is_list c000
       then parts ← iter c; for_each add_part parts s0
       else rings ← iter c; for_each add_ring rings s0);
  if decide (0 < num_points s)%nat
  then Ok (Some (lon_sum s / INR (num_points s),
                 lat_sum s / INR (num_points s)))
  else Ok None.

(** ** load_data, water bodies (lines 85-95) *)

(** [{"lon": lon, "lat": lat}] *)
Record water_body : Type := { wb_lon : R; wb_lat : R }.

(** A feature of a water-body file: [geometry] is [None] for a null
    geometry, else the geometry's coordinates. *)
Record feature : Type := { geometry : option coords }.

Definition load_water_feature (water : list water_body) (f : feature)
  : result (list water_body) :=
  match geometry f with
  | Some c =>
      if truthy c then
        centroid ← find_polygon_centroid c;
        match centroid with
        | Some (lon, lat) => Ok (water ++ [{| wb_lon := lon; wb_lat := lat |}])
        | None => Ok water
        end
      else Ok water
  | None => Ok water
  end.

(** One file of [WATER_FILES]: [None] when the file does not exist
    ([FileNotFoundError] is caught and the next file is read). *)
Definition load_water_file (water : list water_body)
    (file : option (list feature)) : result (list water_body) :=
  match file with
  | Some features => for_each load_water_feature features water
  | None => Ok water
  end.

Definition load_water_bodies (files : list (option (list feature)))
  : result (list water_body) :=
  for_each load_water_file files [].

(** ** The data held after loading *)

(** A value of [fra_data]. *)
Record village_info : Type :=
  { vi_village : string; vi_state : string; vi_lon : R; vi_lat : R }.

Record store : Type :=
  { fra_data : gmap string village_info;
    water_body_locations : list water_body }.

(** ** get_nearest_water_distance (lines 101-107) *)

(** A float that is a distance: a real, or [float('inf')]. *)
Inductive distance : Type :=
| Fin (d : R)
| Inf.

(** [dist < min_distance] *)
Definition lt_distance (dist : R) (min_distance : distance) : bool :=
  match min_distance with
  | Fin m => if Rlt_dec dist m then true else false
  | Inf => true
  end.

(** The body of the loop of lines 103-106. *)
Definition nearer (lon lat : R) (min_distance : distance) (w : water_body)
  : result distance :=
  dist ← haversine lon lat (wb_lon w) (wb_lat w);
  Ok (if lt_distance dist min_distance then Fin dist else min_distance).

Definition get_nearest_water_distance (st : store) (lon lat : R)
  : result distance :=
  for_each (nearer lon lat) (water_body_locations st) Inf.

(** ** generate_water_recommendation (lines 110-140) *)

(** A formatted string: literal text and [{x:.2f}] fields. *)
Inductive fragment : Type :=
| Text (s : string)
| Fixed2 (x : R).

Definition message : Type := list fragment.

(** The line feed, written [\n] in the source. *)
Definition nl : string := String "010"%char EmptyString.

Definition survey_message : message :=
  [Text "Data not available for this village. Recommend field survey. 🌱"].

Definition critical_message : message :=
  [Text ("No water source nearby. Nearest water body is over 1000 km away. ⚠️"
         +:+ nl +:+
         "Urgent intervention needed to establish sustainable water supply. "
         +:+
         "Recommend Jal Jeevan Mission priority for infrastructure development.")].

Definition severe_message (water_dist : R) : message :=
  [Text "No water source nearby. Nearest water body is "; Fixed2 water_dist;
   Text (" km away. ⚠️" +:+ nl +:+
         "Consider water harvesting and supply schemes under Jal Jeevan Mission.")].

Definition moderate_message (water_dist : R) : message :=
  [Text "Water source nearby but at "; Fixed2 water_dist;
   Text (" km distance. 💧" +:+ nl +:+
         "Recommend improving water access infrastructure and monitoring water quality.")].

Definition adequate_message (water_dist : R) : message :=
  [Text "Water source very close at "; Fixed2 water_dist;
   Text (" km. 💧" +:+ nl +:+
         "Focus on maintenance of existing water resources and community water management.")].

(** The chain of comparisons of lines 118-138. *)
Definition classify (water_dist : distance) : message :=
  match water_dist with
  | Inf => critical_message
  | Fin d =>
      if Rlt_dec 1000 d then critical_message
      else if Rlt_dec 100 d then severe_message d
      else if Rlt_dec 10 d then moderate_message d
      else adequate_message d
  end.

(** The second component of the result: the distance, or the string
    ["N/A"]. *)
Inductive distance_field : Type :=
| Number (d : distance)
| NA.

(** [village_name] is [None] when the request record has no ["name"]:
    [fra_data.get(None)] is [None].  A stored value is a dict of four keys,
    never a false one, so [not village_info] holds exactly when the lookup
    finds nothing. *)
Definition generate_water_recommendation (st : store)
    (village_name : option string) : result (message * distance_field) :=
  match village_name ≫= (λ n, fra_data st !! n) with
  | None => Ok (survey_message, NA)
  | Some village_info =>
      let lon := vi_lon village_info in
      let lat := vi_lat village_info in
      water_dist ← get_nearest_water_distance st lon lat;
      Ok (classify water_dist, Number water_dist)
  end.

(** ** analyze (lines 143-161) *)

(** An item of ["villages"]; [name] is [rec.get("name")]. *)
Record request_record : Type := { name : option string }.

Record result_record : Type :=
  { village : option string;
    recommendation : message;
    distance_to_water : distance_field }.

Inductive response : Type :=
| Success (results : list result_record)
| Failure (e : exn).

(** The body of the loop of lines 149-157. *)
Definition analyze_record (st : store) (results : list result_record)
    (rec : request_record) : result (list result_record) :=
  '(recommendation, distance_to_water) ←
     generate_water_recommendation st (name rec);
  Ok (results ++ [{| village := name rec;
                     recommendation := recommendation;
                     distance_to_water := distance_to_water |}]).

(** [villages] is [None] when the request has no ["villages"] key. *)
Definition analyze (st : store) (villages : option (list request_record))
  : response :=
  match for_each (analyze_record st) (default [] villages) [] with
  | Ok results => Success results
  | Raise e => Failure e
  end.

(** ** load_data, villages (lines 66-82) *)

(** The two dictionaries of lines 10-21, in the order they are iterated:
    file path, then state name. *)
Definition VILLAGE_FILES : list (string * string) :=
  [("centroids_mp.geojson", "Madhya Pradesh");
   ("villages_od.geojson", "Odisha");
   ("villages_tl.geojson", "Telangana");
   ("villages_tp.geojson", "Tripura")]%string.

Definition WATER_FILES : list (string * string) :=
  [("fixed_waterbodies.geojson", "Madhya Pradesh");
   ("fixed_waterbodies_od.geojson", "Odisha");
   ("fixed_waterbodies_tl.geojson", "Telangana");
   ("fixed_waterbodies_tp.geojson", "Tripura")]%string.

(** A feature of a village file: [vf_name] is
    [feature["properties"].get("name")], [None] when there is no name;
    [vf_geometry] is read as [geometry] of [feature]. *)
Record village_feature : Type :=
  { vf_name : option string; vf_geometry : option coords }.

(** A value of [fra_data] as line 75 stores it: [lon] and [lat] are the two
    items of the coordinates, whatever they are. *)
Record village_entry : Type :=
  { ve_village : string; ve_state : string; ve_lon : coords; ve_lat : coords }.

(** What [open] and [json.load] give for a path: the features of the file,
    or [None] when the file does not exist. *)
Record disk : Type :=
  { village_files : string → option (list village_feature);
    water_files : string → option (list feature) }.

(** Lines 72-80.  An empty name is false, as is a missing one. *)
Definition load_village_feature (state_name : string)
    (fra : gmap string village_entry) (f : village_feature)
  : result (gmap string village_entry) :=
  match vf_name f, vf_geometry f with
  | Some name, Some c =>
      if bool_decide (name ≠ ""%string) && truthy c then
        '(lon, lat) ← unpack2 c;
        Ok (<[name := {| ve_village := name; ve_state := state_name;
                         ve_lon := lon; ve_lat := lat |}]> fra)
      else Ok fra
  | _, _ => Ok fra
  end.

(** Lines 68-82 for one entry of [VILLAGE_FILES]. *)
Definition load_village_file (fra : gmap string village_entry)
    (state_name : string) (file : option (list village_feature))
  : result (gmap string village_entry) :=
  match file with
  | Some features => for_each (load_village_feature state_name) features fra
  | None => Ok fra
  end.

Definition load_villages (d : disk) : result (gmap string village_entry) :=
  for_each (λ fra '(file_path, state_name),
              load_village_file fra state_name (village_files d file_path))
    VILLAGE_FILES ∅.

(** [load_data]: [fra_data] and [water_body_locations] start empty (lines
    24-25) and are filled from the files, villages first. *)
Definition load_data (d : disk)
  : result (gmap string village_entry * list water_body) :=
  fra ← load_villages d;
  water ← load_water_bodies ((λ '(file_path, _), water_files d file_path)
                             <$> WATER_FILES);
  Ok (fra, water).

(** * Vocabulary of the statements *)

(** The value of the formula of lines 55-60 in exact arithmetic, where the
    arguments of both square roots are in their domain. *)
Definition haversine_km (lon1 lat1 lon2 lat2 : R) : R :=
  let a := hav (radians lon1) (radians lat1) (radians lon2) (radians lat2) in
  R_earth * (2 * atan2 (sqrt a) (sqrt (1 - a))).

(** How well-formed geometries are written as coordinates: a vertex is the
    array [[lon, lat]], a ring an array of vertices, a Polygon an array of
    rings and a MultiPolygon an array of Polygons. *)
Definition Vertex (v : R * R) : coords := Arr [Num v.1; Num v.2].
Definition Ring (vs : list (R * R)) : coords := Arr (Vertex <$> vs).
Definition Polygon (rings : list (list (R * R))) : coords :=
  Arr (Ring <$> rings).
Definition MultiPolygon (parts : list (list (list (R * R)))) : coords :=
  Arr (Polygon <$> parts).

Definition Rsum (l : list R) : R := foldr Rplus 0 l.

(** The unweighted arithmetic mean. *)
Definition mean (l : list R) : R := Rsum l / INR (length l).

(** The sums after the vertices [vs] have been added to [s]. *)
Definition accumulate (s : sums) (vs : list (R * R)) : sums :=
  {| lon_sum := lon_sum s + Rsum (fst <$> vs);
     lat_sum := lat_sum s + Rsum (snd <$> vs);
     num_points := num_points s + length vs |}.

(** The entry [load_data] stores for a village whose coordinates are two
    numbers. *)
Definition entry_of (info : village_info) : village_entry :=
  {| ve_village := vi_village info; ve_state := vi_state info;
     ve_lon := Num (vi_lon info); ve_lat := Num (vi_lat info) |}.

(** The village features [load_data] goes through, each with the state name
    of its file, in the order they are read; files that do not exist
    contribute nothing. *)
Definition village_rows (d : disk) : list (string * village_feature) :=
  '(file_path, state_name) ← VILLAGE_FILES;
  (λ f, (state_name, f)) <$> default [] (village_files d file_path).

(** The feature has coordinates that line 90 takes as true. *)
Definition has_coordinates (f : feature) : bool :=
  match geometry f with Some c => truthy c | None => false end.

(** The order of distances, [Inf] above every real. *)
Definition le_distance (d1 d2 : distance) : Prop :=
  match d1, d2 with
  | Fin x, Fin y => x <= y
  | _, Inf => True
  | Inf, Fin _ => False
  end.

(** The water point [w] is the centroid of the feature [f]. *)
Definition centroid_of_feature (f : feature) (w : water_body) : Prop :=
  ∃ c, geometry f = Some c
       ∧ find_polygon_centroid c = Ok (Some (wb_lon w, wb_lat w)).

(** One step of the village load, on a row of [village_rows]. *)
Definition load_village_row (fra : gmap string village_entry)
    (row : string * village_feature) : result (gmap string village_entry) :=
  load_village_feature row.1 fra row.2.

(** The entry line 75 stores for the name [k] of a feature in a file of the
    state [st] whose coordinates are [[lon, lat]]. *)
Definition entry (k st : string) (lon lat : coords) : village_entry :=
  {| ve_village := k; ve_state := st; ve_lon := lon; ve_lat := lat |}.

(** Every entry of [fra] is stored under its own name, which is not empty,
    and was read from one of [rows]. *)
Definition from_rows (rows : list (string * village_feature))
    (fra : gmap string village_entry) : Prop :=
  ∀ k e, fra !! k = Some e →
    k ≠ ""%string
    ∧ ∃ st f lon lat,
        (st, f) ∈ rows ∧ vf_name f = Some k
        ∧ vf_geometry f = Some (Arr [lon; lat]) ∧ e = entry k st lon lat.

(** A disk with two village files and no water file: "Rampur" is in the
    file of Madhya Pradesh and, followed by a feature without a name, in
    the file of Odisha. *)
Definition two_states_disk : disk :=
  {| village_files := λ file_path,
       if decide (file_path = "centroids_mp.geojson"%string) then
         Some [{| vf_name := Some "Rampur"%string;
                  vf_geometry := Some (Arr [Num 78; Num 23]) |}]
       else if decide (file_path = "villages_od.geojson"%string) then
         Some [{| vf_name := Some "Rampur"%string;
                  vf_geometry := Some (Arr [Num 85; Num 20]) |};
               {| vf_name := None;
                  vf_geometry := Some (Arr [Num 86; Num 21]) |}]
       else None;
     water_files := λ _, None |}.

(** Lines 59-60 as a function of the quantity [a] that line 58 has
    computed. *)
Definition haversine_from (a : R) : result R :=
  sa ← math_sqrt a;
  sb ← math_sqrt (1 - a);
  let c := 2 * atan2 sa sb in
  Ok (R_earth * c).

(** The loop body and the loop of [analyze] (lines 147-161) with the call
    of line 151 as a parameter [gen]. *)
Definition analyze_record_with
    (gen : option string → result (message * distance_field))
    (results : list result_record) (rec : request_record)
  : result (list result_record) :=
  '(recommendation, distance_to_water) ← gen (name rec);
  Ok (results ++ [{| village := name rec;
                     recommendation := recommendation;
                     distance_to_water := distance_to_water |}]).

Definition analyze_with
    (gen : option string → result (message * distance_field))
    (villages : option (list request_record)) : response :=
  match for_each (analyze_record_with gen) (default [] villages) [] with
  | Ok results => Success results
  | Raise e => Failure e
  end.

(** A disk with one village file and one water file: "Rampur" at (85, 20)
    in Odisha, and a pond that is the square of side 2 around (85, 20). *)
Definition village_and_pond_disk : disk :=
  {| village_files := λ file_path,
       if decide (file_path = "villages_od.geojson"%string) then
         Some [{| vf_name := Some "Rampur"%string;
                  vf_geometry := Some (Arr [Num 85; Num 20]) |}]
       else None;
     water_files := λ file_path,
       if decide (file_path = "fixed_waterbodies_od.geojson"%string) then
         Some [{| geometry :=
                    Some (Polygon [[(84, 19); (84, 21); (86, 21); (86, 19)]])
               |}]
       else None |}.

(** * Properties *)

(** ** haversine *)

Lemma sin_sq_bounds x : 0 <= sin x ^ 2 <= 1.
Proof.
  pose proof (sin2_cos2 x) as E. unfold Rsqr in E.
  split; nra.
Qed.

(** With [al] the half difference and [be] the half sum of the two
    latitudes, [cos lat1 * cos lat2] is [cos² be - sin² al]. *)
Lemma cos_cos_half (lat1 lat2 : R) :
  cos lat1 * cos lat2
  = cos ((lat1 + lat2) / 2) ^ 2 - sin ((lat2 - lat1) / 2) ^ 2.
Proof.
  set (al := (lat2 - lat1) / 2). set (be := (lat1 + lat2) / 2).
  replace lat1 with (be - al) by (unfold al, be; lra).
  replace lat2 with (be + al) by (unfold al, be; lra).
  rewrite cos_minus, cos_plus.
  pose proof (sin2_cos2 al) as Ea. pose proof (sin2_cos2 be) as Eb.
  unfold Rsqr in Ea, Eb. nra.
Qed.

(** [a] is a convex combination of [sin² al] and [cos² be]. *)
Lemma hav_convex (lon1 lat1 lon2 lat2 : R) :
  let u := sin ((lon2 - lon1) / 2) ^ 2 in
  hav lon1 lat1 lon2 lat2
  = (1 - u) * sin ((lat2 - lat1) / 2) ^ 2 + u * cos ((lat1 + lat2) / 2) ^ 2.
Proof. intros u. unfold hav. rewrite cos_cos_half. fold u. ring. Qed.

Lemma hav_bounds (lon1 lat1 lon2 lat2 : R) :
  0 <= hav lon1 lat1 lon2 lat2 <= 1.
Proof.
  rewrite hav_convex. cbv zeta.
  pose proof (sin_sq_bounds ((lon2 - lon1) / 2)) as Hu.
  pose proof (sin_sq_bounds ((lat2 - lat1) / 2)) as Ha.
  pose proof (sin2_cos2 ((lat1 + lat2) / 2)) as Eb. unfold Rsqr in Eb.
  pose proof (sin_sq_bounds ((lat1 + lat2) / 2)) as Hb.
  split; nra.
Qed.

Lemma hav_sym (lon1 lat1 lon2 lat2 : R) :
  hav lon1 lat1 lon2 lat2 = hav lon2 lat2 lon1 lat1.
Proof.
  unfold hav.
  replace ((lat1 - lat2) / 2) with (- ((lat2 - lat1) / 2)) by lra.
  replace ((lon1 - lon2) / 2) with (- ((lon2 - lon1) / 2)) by lra.
  rewrite !sin_neg. ring.
Qed.

Lemma math_sqrt_nonneg x : 0 <= x → math_sqrt x = Ok (sqrt x).
Proof. intros H. unfold math_sqrt. destruct (Rle_dec 0 x); [done | lra]. Qed.

Lemma atan2_quadrant1 y x : 0 <= y → 0 <= x → 0 <= atan2 y x <= PI / 2.
Proof.
  intros Hy Hx. pose proof PI_RGT_0 as HPI. unfold atan2.
  destruct (Rlt_dec 0 x) as [Hpos | Hnpos].
  - pose proof (atan_bound (y / x)) as [_ Hub].
    split; [| lra].
    rewrite <- atan_0. destruct Hy as [Hy | <-].
    + left. apply atan_increasing. apply Rdiv_lt_0_compat; lra.
    + right. f_equal. unfold Rdiv. ring.
  - destruct (Rlt_dec x 0); [lra |].
    destruct (Rlt_dec 0 y); [lra |].
    destruct (Rlt_dec y 0); lra.
Qed.

(** Over the reals the quantity [a] is in [0, 1] and [haversine] is
    [haversine_km]; the theorems on the scan and on the batch do not rest
    on this, they take the return of [haversine] as a hypothesis. *)
Lemma haversine_total (lon1 lat1 lon2 lat2 : R) :
  haversine lon1 lat1 lon2 lat2 = Ok (haversine_km lon1 lat1 lon2 lat2).
Proof.
  unfold haversine, haversine_km. cbv zeta.
  pose proof (hav_bounds (radians lon1) (radians lat1)
                         (radians lon2) (radians lat2)) as [H0 H1].
  rewrite (math_sqrt_nonneg _ H0). simpl.
  rewrite math_sqrt_nonneg by lra. reflexivity.
Qed.

(** C4. haversine is symmetric: exchanging the two points gives the same
    result. *)
Theorem haversine_symmetric (lon1 lat1 lon2 lat2 : R) :
  haversine lon1 lat1 lon2 lat2 = haversine lon2 lat2 lon1 lat1.
Proof.
  rewrite !haversine_total. f_equal.
  unfold haversine_km. cbv zeta.
  rewrite (hav_sym (radians lon2)). reflexivity.
Qed.

(** ** The recommendation tiers *)

(** Walks down the chain of comparisons, closing the branches that the
    bounds in the context rule out. *)
Ltac walk_chain :=
  unfold classify;
  repeat match goal with
         | |- context [Rlt_dec ?a ?b] => destruct (Rlt_dec a b); try lra
         end;
  try reflexivity.

Lemma classify_critical d : 1000 < d → classify (Fin d) = critical_message.
Proof. intros H. walk_chain. Qed.

Lemma classify_severe d :
  100 < d <= 1000 → classify (Fin d) = severe_message d.
Proof. intros [H1 H2]. walk_chain. Qed.

Lemma classify_moderate d :
  10 < d <= 100 → classify (Fin d) = moderate_message d.
Proof. intros [H1 H2]. walk_chain. Qed.

Lemma classify_adequate d : d <= 10 → classify (Fin d) = adequate_message d.
Proof. intros H. walk_chain. Qed.

(** The four tiers are told apart by their text, whatever the distance. *)
Lemma tiers_distinct d1 d2 d3 :
  critical_message ≠ severe_message d1
  ∧ critical_message ≠ moderate_message d2
  ∧ critical_message ≠ adequate_message d3
  ∧ severe_message d1 ≠ moderate_message d2
  ∧ severe_message d1 ≠ adequate_message d3
  ∧ moderate_message d2 ≠ adequate_message d3.
Proof. repeat split; intros E; discriminate E. Qed.

(** C1. The tiers are cut at 10, 100 and 1000, each bound belonging to the
    band below it: 10.00 is adequate, 10.01 moderate, 100.00 moderate,
    100.01 severe, 1000.00 severe and 1000.01 critical; and for every finite
    distance the tier is the one of its band. *)
Theorem classify_thresholds :
  classify (Fin 10.00) = adequate_message 10.00
  ∧ classify (Fin 10.01) = moderate_message 10.01
  ∧ classify (Fin 100.00) = moderate_message 100.00
  ∧ classify (Fin 100.01) = severe_message 100.01
  ∧ classify (Fin 1000.00) = severe_message 1000.00
  ∧ classify (Fin 1000.01) = critical_message
  ∧ ∀ d : R,
      (classify (Fin d) = adequate_message d ↔ d <= 10)
      ∧ (classify (Fin d) = moderate_message d ↔ 10 < d <= 100)
      ∧ (classify (Fin d) = severe_message d ↔ 100 < d <= 1000)
      ∧ (classify (Fin d) = critical_message ↔ 1000 < d).
Proof.
  split; [apply classify_adequate; lra |].
  split; [apply classify_moderate; lra |].
  split; [apply classify_moderate; lra |].
  split; [apply classify_severe; lra |].
  split; [apply classify_severe; lra |].
  split; [apply classify_critical; lra |].
  intros d.
  pose proof (tiers_distinct d d d) as (Hcs & Hcm & Hca & Hsm & Hsa & Hma).
  destruct (Rle_lt_dec d 10) as [H10 | H10];
    [| destruct (Rle_lt_dec d 100) as [H100 | H100];
       [| destruct (Rle_lt_dec d 1000) as [H1000 | H1000]]].
  - rewrite classify_adequate by lra.
    repeat split; intros; try lra; try done; exfalso; eauto.
  - rewrite classify_moderate by lra.
    repeat split; intros; try lra; try done; exfalso; eauto.
  - rewrite classify_severe by lra.
    repeat split; intros; try lra; try done; exfalso; eauto.
  - rewrite classify_critical by lra.
    repeat split; intros; try lra; try done; exfalso; eauto.
Qed.

(** ** The nearest water body *)

(** C2. With no water point stored the scan returns the infinite sentinel
    for every query point, the sentinel is classified as critical, and so a
    registered village gets the critical message. *)
Theorem empty_water_is_critical (villages : gmap string village_info)
    (lon lat : R) :
  let st := {| fra_data := villages; water_body_locations := [] |} in
  get_nearest_water_distance st lon lat = Ok Inf
  ∧ classify Inf = critical_message
  ∧ ∀ (n : string) (info : village_info),
      villages !! n = Some info →
      generate_water_recommendation st (Some n)
      = Ok (critical_message, Number Inf).
Proof.
  intros st. split; [reflexivity |]. split; [reflexivity |].
  intros n info Hn. unfold generate_water_recommendation. simpl.
  rewrite Hn. reflexivity.
Qed.

(** ** The centroid *)

Lemma sums_eq (s s' : sums) :
  lon_sum s = lon_sum s' → lat_sum s = lat_sum s' →
  num_points s = num_points s' → s = s'.
Proof. destruct s, s'. simpl. intros -> -> ->. reflexivity. Qed.

Lemma Rsum_app l1 l2 : Rsum (l1 ++ l2) = Rsum l1 + Rsum l2.
Proof.
  induction l1 as [| x l1 IH]; simpl; [lra |].
  fold (Rsum (l1 ++ l2)) (Rsum l1). rewrite IH. lra.
Qed.

Lemma accumulate_nil s : accumulate s [] = s.
Proof. apply sums_eq; simpl; [lra | lra | lia]. Qed.

Lemma accumulate_app s vs1 vs2 :
  accumulate (accumulate s vs1) vs2 = accumulate s (vs1 ++ vs2).
Proof.
  apply sums_eq; simpl; rewrite ?fmap_app, ?Rsum_app, ?length_app; [lra | lra | lia].
Qed.

Lemma add_vertex_ok s v : add_vertex s (Vertex v) = Ok (accumulate s [v]).
Proof.
  unfold add_vertex, Vertex. simpl. f_equal.
  apply sums_eq; simpl; [lra | lra | lia].
Qed.

Lemma add_vertices_ok vs : ∀ s,
  for_each add_vertex (Vertex <$> vs) s = Ok (accumulate s vs).
Proof.
  induction vs as [| v vs IH]; intros s.
  - simpl. rewrite accumulate_nil. reflexivity.
  - rewrite fmap_cons. cbn [for_each]. rewrite add_vertex_ok. simpl.
    rewrite IH, accumulate_app. reflexivity.
Qed.

Lemma add_ring_ok s vs : add_ring s (Ring vs) = Ok (accumulate s vs).
Proof. unfold add_ring, Ring. simpl. apply add_vertices_ok. Qed.

Lemma add_rings_ok rings : ∀ s,
  for_each add_ring (Ring <$> rings) s = Ok (accumulate s (concat rings)).
Proof.
  induction rings as [| r rings IH]; intros s.
  - simpl. rewrite accumulate_nil. reflexivity.
  - rewrite fmap_cons. cbn [for_each]. rewrite add_ring_ok. simpl.
    rewrite IH, accumulate_app. reflexivity.
Qed.

Lemma add_part_ok s rings :
  add_part s (Polygon rings) = Ok (accumulate s (concat rings)).
Proof. unfold add_part, Polygon. simpl. apply add_rings_ok. Qed.

Lemma add_parts_ok parts : ∀ s,
  for_each add_part (Polygon <$> parts) s
  = Ok (accumulate s (concat (concat parts))).
Proof.
  induction parts as [| p parts IH]; intros s.
  - simpl. rewrite accumulate_nil. reflexivity.
  - rewrite fmap_cons. cbn [for_each]. rewrite add_part_ok. simpl.
    rewrite IH, accumulate_app, concat_app. reflexivity.
Qed.

(** The value returned once the loops have added the vertices [v :: vs] to
    zero sums. *)
Lemma centroid_of_sums (v : R * R) (vs : list (R * R)) :
  (let s := accumulate {| lon_sum := 0; lat_sum := 0; num_points := 0 |}
              (v :: vs) in
   if decide (0 < num_points s)%nat
   then Ok (Some (lon_sum s / INR (num_points s),
                  lat_sum s / INR (num_points s)))
   else Ok None)
  = Ok (Some (mean (fst <$> v :: vs), mean (snd <$> v :: vs))).
Proof.
  cbv zeta. destruct (decide _) as [_ | Hn]; [| simpl in Hn; lia].
  unfold mean. rewrite !length_fmap.
  cbn [accumulate lon_sum lat_sum num_points].
  rewrite !Rplus_0_l, Nat.add_0_l. reflexivity.
Qed.

(** C5. The centroid is the unweighted mean of the longitudes and of the
    latitudes of all vertices of all rings, of all parts when the nesting is
    one level deeper (the input is a MultiPolygon); the centroid of the
    square [[[0,0],[0,2],[2,2],[2,0]]] is (1, 1). *)
Theorem centroid_is_vertex_mean :
  (∀ (v : R * R) (vs : list (R * R)) (rings : list (list (R * R))),
     let all := concat ((v :: vs) :: rings) in
     find_polygon_centroid (Polygon ((v :: vs) :: rings))
     = Ok (Some (mean (fst <$> all), mean (snd <$> all))))
  ∧ (∀ (v : R * R) (vs : list (R * R)) (rings : list (list (R * R)))
       (parts : list (list (list (R * R)))),
       let all := concat (concat (((v :: vs) :: rings) :: parts)) in
       find_polygon_centroid (MultiPolygon (((v :: vs) :: rings) :: parts))
       = Ok (Some (mean (fst <$> all), mean (snd <$> all))))
  ∧ find_polygon_centroid
      (Arr [Arr [Arr [Num 0; Num 0]; Arr [Num 0; Num 2];
                 Arr [Num 2; Num 2]; Arr [Num 2; Num 0]]])
    = Ok (Some (1, 1)).
Proof.
  assert (Hpoly : ∀ v vs rings,
             find_polygon_centroid (Polygon ((v :: vs) :: rings))
             = Ok (Some (mean (fst <$> concat ((v :: vs) :: rings)),
                         mean (snd <$> concat ((v :: vs) :: rings))))).
  { intros v vs rings. unfold find_polygon_centroid.
    cbn [Polygon Ring Vertex fmap list_fmap index0 mbind result_bind is_list iter].
    change (for_each add_ring _ ?s)
      with (for_each add_ring (Ring <$> (v :: vs) :: rings) s).
    rewrite add_rings_ok. cbn [mbind result_bind concat app].
    apply centroid_of_sums. }
  split; [exact Hpoly |]. split.
  - intros v vs rings parts. unfold find_polygon_centroid.
    cbn [MultiPolygon Polygon Ring Vertex fmap list_fmap index0 mbind
         result_bind is_list iter].
    change (for_each add_part _ ?s)
      with (for_each add_part (Polygon <$> ((v :: vs) :: rings) :: parts) s).
    rewrite add_parts_ok. cbn [mbind result_bind concat app].
    apply centroid_of_sums.
  - change (find_polygon_centroid
              (Polygon [[(0, 0); (0, 2); (2, 2); (2, 0)]]) = Ok (Some (1, 1))).
    rewrite Hpoly. unfold mean. simpl. do 3 f_equal; lra.
Qed.

(** *** No absent result *)

Lemma bind_Ok {A B : Type} (r : result A) (f : A → result B) (b : B) :
  r ≫= f = Ok b → ∃ a, r = Ok a ∧ f a = Ok b.
Proof. destruct r as [a | e]; simpl; [eauto | discriminate]. Qed.

Lemma add_vertex_count s v s' :
  add_vertex s v = Ok s' → num_points s' = S (num_points s).
Proof.
  unfold add_vertex. intros H.
  apply bind_Ok in H as ([lon lat] & _ & H).
  apply bind_Ok in H as (x & _ & H).
  apply bind_Ok in H as (y & _ & H).
  injection H as <-. reflexivity.
Qed.

Lemma add_vertices_count vs : ∀ s s',
  for_each add_vertex vs s = Ok s' →
  num_points s' = (num_points s + length vs)%nat.
Proof.
  induction vs as [| v vs IH]; intros s s' H; simpl in H.
  - injection H as <-. simpl. lia.
  - apply bind_Ok in H as (s1 & H1 & H).
    apply add_vertex_count in H1. apply IH in H. simpl. lia.
Qed.

Lemma add_ring_count s r s' :
  add_ring s r = Ok s' →
  ∃ vs, r = Arr vs ∧ num_points s' = (num_points s + length vs)%nat.
Proof.
  unfold add_ring. intros H. apply bind_Ok in H as (vs & Hvs & H).
  destruct r as [x | items]; simpl in Hvs; [discriminate |].
  injection Hvs as ->. exists vs. split; [reflexivity |].
  by apply add_vertices_count.
Qed.

Lemma add_rings_mono rings : ∀ s s',
  for_each add_ring rings s = Ok s' → (num_points s <= num_points s')%nat.
Proof.
  induction rings as [| r rings IH]; intros s s' H; simpl in H.
  - injection H as <-. lia.
  - apply bind_Ok in H as (s1 & H1 & H).
    apply add_ring_count in H1 as (vs & _ & H1). apply IH in H. lia.
Qed.

Lemma add_parts_mono parts : ∀ s s',
  for_each add_part parts s = Ok s' → (num_points s <= num_points s')%nat.
Proof.
  induction parts as [| p parts IH]; intros s s' H; simpl in H.
  - injection H as <-. lia.
  - apply bind_Ok in H as (s1 & H1 & H). apply IH in H.
    unfold add_part in H1. apply bind_Ok in H1 as (rings & _ & H1).
    apply add_rings_mono in H1. lia.
Qed.

(** When the three subscripts of line 34 succeed, the first ring examined by
    the loops has a first element, and the loops either raise on it or count
    it: [num_points] is positive whenever line 49 is reached. *)
Lemma centroid_counts_first (c c0 c00 c000 : coords) (s : sums) :
  index0 c = Ok c0 → index0 c0 = Ok c00 → index0 c00 = Ok c000 →
  (if is_list c000
   then parts ← iter c; for_each add_part parts
                          {| lon_sum := 0; lat_sum := 0; num_points := 0 |}
   else rings ← iter c; for_each add_ring rings
                          {| lon_sum := 0; lat_sum := 0; num_points := 0 |})
  = Ok s →
  (0 < num_points s)%nat.
Proof.
  intros H0 H00 H000 H.
  destruct c as [x | [| c0' rest]]; simpl in H0; try discriminate.
  injection H0 as ->.
  destruct c0 as [x | [| c00' rest0]]; simpl in H00; try discriminate.
  injection H00 as ->.
  destruct c00 as [x | [| c000' rest00]]; simpl in H000; try discriminate.
  injection H000 as ->.
  destruct c000 as [x | items]; cbn [is_list iter mbind result_bind] in H.
  - (* Polygon: the first ring is [c0], its first element [c00] *)
    cbn [for_each] in H. apply bind_Ok in H as (s1 & H1 & H).
    apply add_ring_count in H1 as (vs & [= <-] & H1). simpl in H1.
    apply add_rings_mono in H. lia.
  - (* MultiPolygon: the first part is [c0], its first ring [c00] *)
    cbn [for_each] in H. apply bind_Ok in H as (s1 & H1 & H).
    apply add_parts_mono in H.
    unfold add_part in H1. cbn [iter mbind result_bind for_each] in H1.
    apply bind_Ok in H1 as (s2 & H2 & H1).
    apply add_ring_count in H2 as (vs & [= <-] & H2). simpl in H2.
    apply add_rings_mono in H1. lia.
Qed.

(** C9 (not met).  The absent result of line 51 is never returned: for the
    polygon with one empty ring, [[[]]], which has no vertex, the subscript
    of line 34 raises [IndexError], and [load_data], which catches only a
    missing file, stops on it instead of skipping the feature. *)
Theorem centroid_never_absent :
  find_polygon_centroid (Arr [Arr []]) = Raise IndexError
  ∧ load_water_bodies [Some [{| geometry := Some (Arr [Arr []]) |}]]
    = Raise IndexError
  ∧ ∀ c : coords, find_polygon_centroid c ≠ Ok None.
Proof.
  split; [reflexivity |]. split; [reflexivity |].
  intros c H. unfold find_polygon_centroid in H.
  apply bind_Ok in H as (c0 & H0 & H).
  apply bind_Ok in H as (c00 & H00 & H).
  apply bind_Ok in H as (c000 & H000 & H).
  apply bind_Ok in H as (s & Hs & H).
  pose proof (centroid_counts_first c c0 c00 c000 s H0 H00 H000 Hs) as Hpos.
  destruct (decide (0 < num_points s)%nat); [discriminate | contradiction].
Qed.

(** *** The code on some inputs *)

(** A MultiPolygon of two triangles: six vertices, one mean. *)
Example centroid_two_parts :
  find_polygon_centroid
    (Arr [Arr [Arr [Arr [Num 0; Num 0]; Arr [Num 3; Num 0]; Arr [Num 0; Num 3]]];
          Arr [Arr [Arr [Num 6; Num 6]; Arr [Num 9; Num 6]; Arr [Num 6; Num 9]]]])
  = Ok (Some (4, 4)).
Proof.
  unfold find_polygon_centroid. simpl.
  do 3 f_equal; lra.
Qed.

(** A position with an altitude does not unpack into [lon, lat]. *)
Example centroid_three_coordinates :
  find_polygon_centroid (Arr [Arr [Arr [Num 1; Num 2; Num 3]]])
  = Raise ValueError.
Proof. reflexivity. Qed.

(** A LineString is one level short: a number is subscripted. *)
Example centroid_line_string :
  find_polygon_centroid (Arr [Arr [Num 1; Num 2]; Arr [Num 3; Num 4]])
  = Raise TypeError.
Proof. reflexivity. Qed.

(** Features with a null geometry or empty coordinates, and files that do
    not exist, are passed over without a call to the centroid. *)
Example load_skips_empty :
  load_water_bodies
    [None; Some [{| geometry := None |}; {| geometry := Some (Arr []) |}]]
  = Ok [].
Proof. reflexivity. Qed.

(** ** The recommendation for one village *)

Lemma recommendation_unregistered st n :
  n ≫= (λ k, fra_data st !! k) = None →
  generate_water_recommendation st n = Ok (survey_message, NA).
Proof. intros H. unfold generate_water_recommendation. rewrite H. done. Qed.

(** ** The batch *)

Lemma analyze_record_ok st acc rec m d :
  generate_water_recommendation st (name rec) = Ok (m, d) →
  analyze_record st acc rec
  = Ok (acc ++ [{| village := name rec; recommendation := m;
                   distance_to_water := d |}]).
Proof. intros E. unfold analyze_record. rewrite E. reflexivity. Qed.

(** * Further properties *)

(** ** haversine: particular configurations *)

Lemma radians_opp x : radians (- x) = - radians x.
Proof. unfold radians. ring. Qed.

Lemma radians_180 : radians 180 = PI.
Proof. unfold radians. field. Qed.

Lemma atan2_0_pos x : 0 < x → atan2 0 x = 0.
Proof.
  intros Hx. unfold atan2. destruct (Rlt_dec 0 x); [| lra].
  replace (0 / x) with 0 by (unfold Rdiv; ring). apply atan_0.
Qed.

Lemma atan2_pos_0 y : 0 < y → atan2 y 0 = PI / 2.
Proof.
  intros Hy. unfold atan2.
  destruct (Rlt_dec 0 0); [lra |]. destruct (Rlt_dec 0 y); [done | lra].
Qed.

(** On the first quadrant [atan2] recovers the angle from its sine and
    cosine. *)
Lemma atan2_sin_cos h : 0 <= h <= PI / 2 → atan2 (sin h) (cos h) = h.
Proof.
  intros [H0 H1]. destruct H1 as [H1 | ->].
  - assert (Hc : 0 < cos h) by (apply cos_gt_0; lra).
    unfold atan2. destruct (Rlt_dec 0 (cos h)); [| lra].
    fold (tan h). apply atan_tan. lra.
  - rewrite sin_PI2, cos_PI2. apply atan2_pos_0. lra.
Qed.

(** Four decimals of PI, from the series of 2 atan(1/3) + atan(1/7). *)
Lemma PI_bounds : 3.1415 < PI < 3.1416.
Proof.
  pose proof (PI_2_3_7_ineq 2) as [Hlb Hub].
  unfold sum_f_R0, tg_alt, PI_2_3_7_tg, Ratan_seq in Hlb, Hub.
  simpl in Hlb, Hub. split; lra.
Qed.

Lemma haversine_km_same_point lon lat : haversine_km lon lat lon lat = 0.
Proof.
  unfold haversine_km. cbv zeta.
  assert (Ha : hav (radians lon) (radians lat) (radians lon) (radians lat) = 0).
  { unfold hav. rewrite !Rminus_diag.
    replace (0 / 2) with 0 by lra. rewrite sin_0. ring. }
  rewrite Ha, Rminus_0_r, sqrt_0, sqrt_1, atan2_0_pos by lra. ring.
Qed.

(** X1. The distance from a point to itself is zero. *)
Theorem haversine_same_point (lon lat : R) :
  haversine lon lat lon lat = Ok 0.
Proof.
  rewrite haversine_total. f_equal. apply haversine_km_same_point.
Qed.

Lemma haversine_km_meridian lon lat1 lat2 :
  Rabs (lat2 - lat1) <= 180 →
  haversine_km lon lat1 lon lat2 = R_earth * radians (Rabs (lat2 - lat1)).
Proof.
  intros Hd. unfold haversine_km. cbv zeta.
  set (h := radians (Rabs (lat2 - lat1)) / 2).
  pose proof PI_RGT_0 as HPI.
  assert (Hh : 0 <= h <= PI / 2).
  { unfold h, radians. pose proof (Rabs_pos (lat2 - lat1)). split; nra. }
  assert (Ha : hav (radians lon) (radians lat1) (radians lon) (radians lat2)
               = sin h ^ 2).
  { unfold hav. rewrite Rminus_diag.
    replace (0 / 2) with 0 by lra. rewrite sin_0.
    replace ((radians lat2 - radians lat1) / 2)
      with (radians (lat2 - lat1) / 2) by (unfold radians; lra).
    unfold h, Rabs. destruct (Rcase_abs (lat2 - lat1)).
    - rewrite radians_opp.
      replace (- radians (lat2 - lat1) / 2)
        with (- (radians (lat2 - lat1) / 2)) by lra.
      rewrite sin_neg. ring.
    - ring. }
  rewrite Ha.
  replace (1 - sin h ^ 2) with (cos h ^ 2)
    by (pose proof (sin2_cos2 h) as E; unfold Rsqr in E; nra).
  rewrite !sqrt_pow2, atan2_sin_cos; [unfold h; field | lra | |].
  - apply cos_ge_0; lra.
  - apply sin_ge_0; lra.
Qed.

(** X5. Along a meridian the distance is the arc of the difference of the
    latitudes: about 111.19 km for each degree. *)
Theorem haversine_along_meridian (lon lat1 lat2 : R) :
  Rabs (lat2 - lat1) <= 180 →
  haversine lon lat1 lon lat2 = Ok (R_earth * radians (Rabs (lat2 - lat1))).
Proof.
  intros Hd. rewrite haversine_total. f_equal.
  by apply haversine_km_meridian.
Qed.

(** One degree of latitude is between 111.19 and 111.20 km; the water body
    0.09 degrees north of a village is a little over 10 km away. *)
Lemma haversine_along_meridian_witness :
  haversine 0 0 0 0.09 = Ok (R_earth * radians (Rabs (0.09 - 0))).
Proof.
  apply haversine_along_meridian.
  rewrite Rabs_pos_eq; lra.
Defined.

(** ** The centroid: which inputs succeed, and what the result depends on *)

Lemma centroid_Polygon (v : R * R) vs rings :
  find_polygon_centroid (Polygon ((v :: vs) :: rings))
  = Ok (Some (mean (fst <$> concat ((v :: vs) :: rings)),
              mean (snd <$> concat ((v :: vs) :: rings)))).
Proof.
  unfold find_polygon_centroid.
  cbn [Polygon Ring Vertex fmap list_fmap index0 mbind result_bind is_list iter].
  change (for_each add_ring _ ?s)
    with (for_each add_ring (Ring <$> (v :: vs) :: rings) s).
  rewrite add_rings_ok. cbn [mbind result_bind concat app].
  apply centroid_of_sums.
Qed.

Lemma centroid_MultiPolygon (v : R * R) vs rings parts :
  find_polygon_centroid (MultiPolygon (((v :: vs) :: rings) :: parts))
  = Ok (Some (mean (fst <$> concat (concat (((v :: vs) :: rings) :: parts))),
              mean (snd <$> concat (concat (((v :: vs) :: rings) :: parts))))).
Proof.
  unfold find_polygon_centroid.
  cbn [MultiPolygon Polygon Ring Vertex fmap list_fmap index0 mbind
       result_bind is_list iter].
  change (for_each add_part _ ?s)
    with (for_each add_part (Polygon <$> ((v :: vs) :: rings) :: parts) s).
  rewrite add_parts_ok. cbn [mbind result_bind concat app].
  apply centroid_of_sums.
Qed.

(** Reading the loops backwards: what they accept is an array of
    [[lon, lat]] pairs of numbers at each level. *)
Lemma add_vertex_inv s v s' :
  add_vertex s v = Ok s' → ∃ p, v = Vertex p ∧ s' = accumulate s [p].
Proof.
  unfold add_vertex. intros H.
  apply bind_Ok in H as ([lon lat] & Hu & H).
  apply bind_Ok in H as (x & Hx & H).
  apply bind_Ok in H as (y & Hy & H).
  destruct v as [? | [| a [| b [| ? ?]]]]; simpl in Hu; try discriminate.
  injection Hu as -> ->.
  destruct lon as [x0 |?]; simpl in Hx; [| discriminate].
  destruct lat as [y0 |?]; simpl in Hy; [| discriminate].
  injection Hx as <-. injection Hy as <-. injection H as <-.
  exists (x0, y0). split; [reflexivity |].
  apply sums_eq; simpl; [lra | lra | lia].
Qed.

Lemma add_vertices_inv vs : ∀ s s',
  for_each add_vertex vs s = Ok s' →
  ∃ ps, vs = Vertex <$> ps ∧ s' = accumulate s ps.
Proof.
  induction vs as [| v vs IH]; intros s s' H; simpl in H.
  - injection H as <-. exists []. by rewrite accumulate_nil.
  - apply bind_Ok in H as (s1 & H1 & H).
    apply add_vertex_inv in H1 as (p & -> & ->).
    apply IH in H as (ps & -> & ->).
    exists (p :: ps). by rewrite accumulate_app.
Qed.

Lemma add_ring_inv s r s' :
  add_ring s r = Ok s' → ∃ ps, r = Ring ps ∧ s' = accumulate s ps.
Proof.
  unfold add_ring. intros H. apply bind_Ok in H as (vs & Hvs & H).
  destruct r as [? | items]; simpl in Hvs; [discriminate |].
  injection Hvs as ->.
  apply add_vertices_inv in H as (ps & -> & ->). by exists ps.
Qed.

Lemma add_rings_inv rs : ∀ s s',
  for_each add_ring rs s = Ok s' →
  ∃ rings, rs = Ring <$> rings ∧ s' = accumulate s (concat rings).
Proof.
  induction rs as [| r rs IH]; intros s s' H; simpl in H.
  - injection H as <-. exists []. by rewrite accumulate_nil.
  - apply bind_Ok in H as (s1 & H1 & H).
    apply add_ring_inv in H1 as (ps & -> & ->).
    apply IH in H as (rings & -> & ->).
    exists (ps :: rings). by rewrite accumulate_app.
Qed.

Lemma add_part_inv s p s' :
  add_part s p = Ok s' →
  ∃ rings, p = Polygon rings ∧ s' = accumulate s (concat rings).
Proof.
  unfold add_part. intros H. apply bind_Ok in H as (rs & Hrs & H).
  destruct p as [? | items]; simpl in Hrs; [discriminate |].
  injection Hrs as ->.
  apply add_rings_inv in H as (rings & -> & ->). by exists rings.
Qed.

Lemma add_parts_inv ps : ∀ s s',
  for_each add_part ps s = Ok s' →
  ∃ parts, ps = Polygon <$> parts
           ∧ s' = accumulate s (concat (concat parts)).
Proof.
  induction ps as [| p ps IH]; intros s s' H; simpl in H.
  - injection H as <-. exists []. by rewrite accumulate_nil.
  - apply bind_Ok in H as (s1 & H1 & H).
    apply add_part_inv in H1 as (rings & -> & ->).
    apply IH in H as (parts & -> & ->).
    exists (rings :: parts). rewrite accumulate_app. cbn [concat].
    by rewrite concat_app.
Qed.

(** X13. The centroid is returned exactly for a Polygon or a MultiPolygon of
    [[lon, lat]] pairs of numbers whose first ring has a vertex; every
    other input raises. *)
Theorem centroid_succeeds_iff_well_formed (c : coords)
    (r : option (R * R)) :
  find_polygon_centroid c = Ok r
  ↔ (∃ v vs rings,
       c = Polygon ((v :: vs) :: rings)
       ∧ r = Some (mean (fst <$> concat ((v :: vs) :: rings)),
                   mean (snd <$> concat ((v :: vs) :: rings))))
    ∨ (∃ v vs rings parts,
         c = MultiPolygon (((v :: vs) :: rings) :: parts)
         ∧ r = Some
             (mean (fst <$> concat (concat (((v :: vs) :: rings) :: parts))),
              mean (snd <$> concat (concat (((v :: vs) :: rings) :: parts))))).
Proof.
  split.
  - intros H. pose proof H as H'. unfold find_polygon_centroid in H'.
    apply bind_Ok in H' as (c0 & H0 & H').
    apply bind_Ok in H' as (c00 & H00 & H').
    apply bind_Ok in H' as (c000 & H000 & H').
    apply bind_Ok in H' as (s & Hs & _).
    destruct c as [? | [| c0' rest]]; simpl in H0; try discriminate.
    injection H0 as ->.
    destruct c0 as [? | [| c00' rest0]]; simpl in H00; try discriminate.
    injection H00 as ->.
    destruct c00 as [? | [| c000' rest00]]; simpl in H000; try discriminate.
    injection H000 as ->.
    destruct c000 as [x | items]; cbn [is_list iter mbind result_bind] in Hs.
    + left. apply add_rings_inv in Hs as (rings & Hr & _).
      destruct rings as [| [| v vs] rings]; try discriminate.
      exists v, vs, rings.
      assert (Hc : Arr (Arr (Arr (Num x :: rest00) :: rest0) :: rest)
                   = Polygon ((v :: vs) :: rings))
        by (unfold Polygon; by rewrite <- Hr).
      split; [exact Hc |]. rewrite Hc, centroid_Polygon in H.
      by injection H.
    + right. apply add_parts_inv in Hs as (parts & Hp & _).
      destruct parts as [| [| [| v vs] rings] parts]; try discriminate.
      exists v, vs, rings, parts.
      assert (Hc : Arr (Arr (Arr (Arr items :: rest00) :: rest0) :: rest)
                   = MultiPolygon (((v :: vs) :: rings) :: parts))
        by (unfold MultiPolygon; by rewrite <- Hp).
      split; [exact Hc |]. rewrite Hc, centroid_MultiPolygon in H.
      by injection H.
  - intros [(v & vs & rings & -> & ->) | (v & vs & rings & parts & -> & ->)].
    + apply centroid_Polygon.
    + apply centroid_MultiPolygon.
Qed.

(** X14. Rings and parts only bring their vertices: a MultiPolygon, and a
    Polygon of several rings (holes included), have the centroid of the
    single ring that lists all their vertices. *)
Theorem centroid_ignores_grouping (v : R * R) (vs : list (R * R))
    (rings : list (list (R * R))) (parts : list (list (list (R * R)))) :
  find_polygon_centroid (Polygon ((v :: vs) :: rings))
  = find_polygon_centroid (Polygon [concat ((v :: vs) :: rings)])
  ∧ find_polygon_centroid (MultiPolygon (((v :: vs) :: rings) :: parts))
    = find_polygon_centroid
        (Polygon [concat (concat (((v :: vs) :: rings) :: parts))]).
Proof.
  split.
  - rewrite centroid_Polygon. cbn [concat app].
    rewrite centroid_Polygon. cbn [concat app]. by rewrite app_nil_r.
  - rewrite centroid_MultiPolygon. cbn [concat app].
    rewrite centroid_Polygon. cbn [concat app]. by rewrite app_nil_r.
Qed.

(** ** load_data: the water bodies *)

Lemma for_each_app {A S : Type} (body : S → A → result S) l1 l2 s :
  for_each body (l1 ++ l2) s = for_each body l1 s ≫= for_each body l2.
Proof.
  revert s. induction l1 as [| x l1 IH]; intros s; [done |].
  simpl. destruct (body s x) as [s1 | e]; simpl; [apply IH | done].
Qed.

(** Reading the files one after the other is reading the features of the
    files that exist as one sequence. *)
Lemma load_water_files_flat (files : list (option (list feature))) : ∀ w,
  for_each load_water_file files w
  = for_each load_water_feature (concat (default [] <$> files)) w.
Proof.
  induction files as [| [fs |] files IH]; intros w; [done | |].
  - rewrite fmap_cons. cbn [concat].
    change (default [] (Some fs)) with fs.
    rewrite for_each_app. cbn [for_each].
    change (load_water_file w (Some fs))
      with (for_each load_water_feature fs w).
    destruct (for_each load_water_feature fs w); simpl; [apply IH | done].
  - rewrite fmap_cons. cbn [concat].
    change (default [] None ++ ?l) with l. cbn [for_each].
    change (load_water_file w None) with (Ok w). simpl. apply IH.
Qed.

Lemma centroid_is_some c r :
  find_polygon_centroid c = Ok r → ∃ lon lat, r = Some (lon, lat).
Proof.
  intros H. unfold find_polygon_centroid in H.
  apply bind_Ok in H as (c0 & H0 & H).
  apply bind_Ok in H as (c00 & H00 & H).
  apply bind_Ok in H as (c000 & H000 & H).
  apply bind_Ok in H as (s & Hs & H).
  pose proof (centroid_counts_first c c0 c00 c000 s H0 H00 H000 Hs) as Hpos.
  destruct (decide (0 < num_points s)%nat); [| contradiction].
  injection H as <-. eauto.
Qed.

(** The feature is passed over, or its centroid is appended. *)
Lemma load_water_feature_cases w f :
  (has_coordinates f = false ∧ load_water_feature w f = Ok w)
  ∨ (∃ c, geometry f = Some c ∧ has_coordinates f = true
          ∧ ((∃ lon lat, find_polygon_centroid c = Ok (Some (lon, lat))
                ∧ load_water_feature w f
                  = Ok (w ++ [{| wb_lon := lon; wb_lat := lat |}]))
             ∨ (∃ e, find_polygon_centroid c = Raise e
                     ∧ load_water_feature w f = Raise e))).
Proof.
  unfold has_coordinates, load_water_feature.
  destruct (geometry f) as [c |]; [| by left].
  destruct (truthy c); [| by left].
  right. exists c. split; [done |]. split; [done |].
  destruct (find_polygon_centroid c) as [r | e] eqn:E.
  - left. destruct (centroid_is_some c r E) as (lon & lat & ->). eauto.
  - right. eauto.
Qed.

Lemma load_water_rows rows : ∀ w w',
  for_each load_water_feature rows w = Ok w' →
  ∃ ws, w' = w ++ ws
        ∧ Forall2 centroid_of_feature
            (filter (λ f, has_coordinates f) rows) ws.
Proof.
  induction rows as [| f rows IH]; intros w w' H.
  - injection H as <-. exists []. by rewrite app_nil_r.
  - cbn [for_each] in H.
    destruct (load_water_feature_cases w f)
      as [[Hno E] | (c & Hc & Hyes & [(lon & lat & Ec & E) | (e & _ & E)])];
      rewrite E in H; simpl in H; [| | discriminate].
    + apply IH in H as (ws & -> & HF). exists ws. split; [done |].
      rewrite filter_cons_False; [done |]. rewrite Hno. intros [].

    + apply IH in H as (ws & -> & HF).
      exists ({| wb_lon := lon; wb_lat := lat |} :: ws).
      split; [by rewrite <- app_assoc |].
      rewrite filter_cons_True by (rewrite Hyes; exact I).
      constructor; [| done]. by exists c.
Qed.

(** X18. When the load succeeds, the water points stored are the centroids of
    the features that have coordinates, one for each, in the order of the
    files and of the features in them; files that do not exist and features
    without coordinates leave no trace. *)
Theorem water_loaded_one_per_feature
    (files : list (option (list feature))) (water : list water_body) :
  load_water_bodies files = Ok water →
  Forall2 (λ f w, ∃ c, geometry f = Some c
                       ∧ find_polygon_centroid c
                         = Ok (Some (wb_lon w, wb_lat w)))
    (filter (λ f, has_coordinates f) (concat (default [] <$> files))) water.
Proof.
  unfold load_water_bodies. rewrite load_water_files_flat. intros H.
  apply load_water_rows in H as (ws & -> & HF). exact HF.
Qed.

(** A missing file, then a file with a feature without geometry and the
    square of side 2. *)
Lemma water_loaded_one_per_feature_witness :
  Forall2 (λ f w, ∃ c, geometry f = Some c
                       ∧ find_polygon_centroid c
                         = Ok (Some (wb_lon w, wb_lat w)))
    (filter (λ f, has_coordinates f)
       (concat (default [] <$>
          [None;
           Some [{| geometry := None |};
                 {| geometry :=
                      Some (Polygon [[(0, 0); (0, 2); (2, 2); (2, 0)]]) |}]])))
    [{| wb_lon := mean [0; 0; 2; 2]; wb_lat := mean [0; 2; 2; 0] |}].
Proof.
  apply water_loaded_one_per_feature.
  unfold load_water_bodies. cbn [for_each load_water_file mbind result_bind].
  cbn [load_water_feature geometry mbind result_bind].
  change (truthy (Polygon [[(0, 0); (0, 2); (2, 2); (2, 0)]])) with true.
  cbv iota. rewrite centroid_Polygon. reflexivity.
Defined.

(** ** load_data: the villages *)

Lemma for_each_fmap {A B S : Type} (body : S → B → result S) (g : A → B) l :
  ∀ s, for_each body (g <$> l) s = for_each (λ s x, body s (g x)) l s.
Proof.
  induction l as [| x l IH]; intros s; [done |].
  rewrite fmap_cons. cbn [for_each].
  destruct (body s (g x)); simpl; [apply IH | done].
Qed.

Lemma load_village_files_flat d (files : list (string * string)) : ∀ fra,
  for_each (λ fra '(file_path, state_name),
              load_village_file fra state_name (village_files d file_path))
    files fra
  = for_each load_village_row
      ('(file_path, state_name) ← files;
       (λ f, (state_name, f)) <$> default [] (village_files d file_path))
      fra.
Proof.
  induction files as [| [p st] files IH]; intros fra; [done |].
  cbn [mbind list_bind list_fmap concat for_each].
  change (mbind ?f files) with (files ≫= f).
  rewrite for_each_app, for_each_fmap.
  destruct (village_files d p) as [fs |]; cbn [default from_option Datatypes.id].
  - change (load_village_file fra st (Some fs))
      with (for_each (load_village_feature st) fs fra).
    change (for_each (λ s x, load_village_row s (st, x)) fs fra)
      with (for_each (load_village_feature st) fs fra).
    destruct (for_each (load_village_feature st) fs fra); simpl;
      [apply IH | done].
  - simpl. apply IH.
Qed.

Lemma load_villages_flat d :
  load_villages d = for_each load_village_row (village_rows d) ∅.
Proof. apply load_village_files_flat. Qed.

(** Line 73 lets the row through and stores it, or lets it through and the
    unpacking of line 74 raises, or passes it over. *)
Lemma load_village_row_cases fra st f :
  (∃ k c, vf_name f = Some k ∧ k ≠ ""%string ∧ vf_geometry f = Some c
          ∧ truthy c = true
          ∧ ((∃ lon lat, c = Arr [lon; lat]
                ∧ load_village_row fra (st, f)
                  = Ok (<[k := entry k st lon lat]> fra))
             ∨ (∃ e, unpack2 c = Raise e
                     ∧ load_village_row fra (st, f) = Raise e)))
  ∨ (load_village_row fra (st, f) = Ok fra
     ∧ ∀ k c, vf_name f = Some k → vf_geometry f = Some c →
              k ≠ ""%string → truthy c = false).
Proof.
  unfold load_village_row, load_village_feature. cbn [fst snd].
  destruct (vf_name f) as [k |]; [| right; split; [done | discriminate]].
  destruct (vf_geometry f) as [c |]; [| right; split; [done | discriminate]].
  destruct (decide (k = ""%string)) as [-> | Hk].
  { right. rewrite bool_decide_false by (intros H; by apply H).
    split; [done |]. intros k c' [= <-]. done. }
  rewrite bool_decide_true by done. cbn [andb].
  destruct (truthy c) eqn:Ht.
  - left. exists k, c. do 4 (split; [done |]).
    destruct (unpack2 c) as [[lon lat] | e] eqn:Eu.
    + left. exists lon, lat. split; [| done].
      destruct c as [? | [| a [| b [| ? ?]]]]; simpl in Eu; try discriminate.
      by injection Eu as -> ->.
    + right. by exists e.
  - right. split; [done |]. by intros k' c' [= <-] [= <-] _.
Qed.

Lemma from_rows_mono rows rows' fra :
  rows ⊆ rows' → from_rows rows fra → from_rows rows' fra.
Proof.
  intros Hsub H k e Hk. destruct (H k e Hk) as (Hne & st & f & lon & lat & Hin & ?).
  split; [done |]. exists st, f, lon, lat. split; [by apply Hsub | done].
Qed.

Lemma load_village_rows_inv rows : ∀ done_rows fra fra',
  from_rows done_rows fra →
  for_each load_village_row rows fra = Ok fra' →
  from_rows (done_rows ++ rows) fra'.
Proof.
  induction rows as [| [st f] rows IH]; intros done_rows fra fra' Hinv H.
  - injection H as <-. by rewrite app_nil_r.
  - cbn [for_each] in H. apply bind_Ok in H as (fra1 & H1 & H).
    replace (done_rows ++ (st, f) :: rows)
      with ((done_rows ++ [(st, f)]) ++ rows) by (by rewrite <- app_assoc).
    apply (IH _ fra1); [| exact H].
    destruct (load_village_row_cases fra st f)
      as [(k & c & Hk & Hne & Hc & Ht & [(lon & lat & -> & E) | (e & _ & E)])
         | [E _]];
      rewrite E in H1; [| discriminate |].
    + injection H1 as <-. intros k' e' Hk'.
      destruct (decide (k = k')) as [<- | Hkk'].
      * rewrite lookup_insert_eq in Hk'. injection Hk' as <-.
        split; [done |]. exists st, f, lon, lat.
        split; [| done]. apply elem_of_app. right. apply list_elem_of_here.
      * rewrite lookup_insert_ne in Hk' by done.
        eapply from_rows_mono; [| exact Hinv | exact Hk'].
        intros x Hx. apply elem_of_app. by left.
    + injection H1 as <-. eapply from_rows_mono; [| exact Hinv].
      intros x Hx. apply elem_of_app. by left.
Qed.

(** X20. Whatever the files hold, an entry of the loaded mapping is stored under
    its own name, never under the empty name, carries the state of the
    file it was read from, and its longitude and latitude are the two items
    of the coordinates of a feature of that name. *)
Theorem village_entries_come_from_files (d : disk)
    (fra : gmap string village_entry) (k : string) (e : village_entry) :
  load_villages d = Ok fra →
  fra !! k = Some e →
  k ≠ ""%string
  ∧ ve_village e = k
  ∧ ∃ (f : village_feature),
      (ve_state e, f) ∈ village_rows d
      ∧ vf_name f = Some k
      ∧ vf_geometry f = Some (Arr [ve_lon e; ve_lat e]).
Proof.
  rewrite load_villages_flat. intros H Hk.
  apply (load_village_rows_inv _ [] ∅) in H; [| intros ? ? ?; by simplify_map_eq].
  destruct (H k e Hk) as (Hne & st & f & lon & lat & Hin & Hn & Hg & ->).
  split; [done |]. split; [done |]. exists f. by cbn.
Qed.

(** A name other than [k] on every row: the entry of [k] stays. *)
Lemma load_village_rows_other rows k : ∀ fra fra',
  (∀ st f, (st, f) ∈ rows → vf_name f ≠ Some k) →
  for_each load_village_row rows fra = Ok fra' →
  fra' !! k = fra !! k.
Proof.
  induction rows as [| [st f] rows IH]; intros fra fra' Hk H.
  - by injection H as <-.
  - cbn [for_each] in H. apply bind_Ok in H as (fra1 & H1 & H).
    rewrite (IH fra1 fra');
      [| intros st' f' Hin; apply (Hk st' f'); by apply list_elem_of_further
       | exact H].
    destruct (load_village_row_cases fra st f)
      as [(k' & c & Hk' & _ & _ & _ & [(lon & lat & _ & E) | (e & _ & E)])
         | [E _]];
      rewrite E in H1; [| discriminate | by injection H1 as <-].
    injection H1 as <-. apply lookup_insert_ne. intros ->.
    by apply (Hk st f (list_elem_of_here _ _)).
Qed.

Lemma last_row_wins rows before after st k f lon lat fra :
  rows = before ++ (st, f) :: after →
  vf_name f = Some k → k ≠ ""%string →
  vf_geometry f = Some (Arr [lon; lat]) →
  (∀ st' f', (st', f') ∈ after → vf_name f' ≠ Some k) →
  for_each load_village_row rows ∅ = Ok fra →
  fra !! k = Some (entry k st lon lat).
Proof.
  intros -> Hn Hne Hg Hafter.
  rewrite for_each_app. intros H. apply bind_Ok in H as (fra1 & _ & H).
  cbn [for_each] in H. apply bind_Ok in H as (fra2 & H2 & H).
  rewrite (load_village_rows_other after k fra2 fra Hafter H).
  unfold load_village_row, load_village_feature in H2. cbn [fst snd] in H2.
  rewrite Hn, Hg, bool_decide_true in H2 by done.
  simpl in H2. injection H2 as <-. apply lookup_insert_eq.
Qed.

(** X21. The last feature of a name wins: when a feature with the name [k], not
    empty, and the coordinates [[lon, lat]] is followed by no feature of
    that name, in its file or in a later file, the entry of [k] is the one
    made from it, with the state of its file. *)
Theorem village_last_feature_wins (d : disk)
    (before after : list (string * village_feature))
    (st k : string) (f : village_feature) (lon lat : coords)
    (fra : gmap string village_entry) :
  village_rows d = before ++ (st, f) :: after →
  vf_name f = Some k → k ≠ ""%string →
  vf_geometry f = Some (Arr [lon; lat]) →
  (∀ st' f', (st', f') ∈ after → vf_name f' ≠ Some k) →
  load_villages d = Ok fra →
  fra !! k = Some {| ve_village := k; ve_state := st;
                     ve_lon := lon; ve_lat := lat |}.
Proof.
  intros Hrows Hn Hne Hg Hafter. rewrite load_villages_flat. intros H.
  exact (last_row_wins _ before after st k f lon lat fra
           Hrows Hn Hne Hg Hafter H).
Qed.

Lemma two_states_disk_loads :
  load_villages two_states_disk
  = Ok (<["Rampur"%string := entry "Rampur" "Odisha" (Num 85) (Num 20)]>
          (<["Rampur"%string
               := entry "Rampur" "Madhya Pradesh" (Num 78) (Num 23)]> ∅)).
Proof. reflexivity. Qed.

Lemma village_entries_come_from_files_witness :
  "Rampur"%string ≠ ""%string
  ∧ ve_village (entry "Rampur" "Odisha" (Num 85) (Num 20)) = "Rampur"%string
  ∧ ∃ f : village_feature,
      (ve_state (entry "Rampur" "Odisha" (Num 85) (Num 20)), f)
      ∈ village_rows two_states_disk
      ∧ vf_name f = Some "Rampur"%string
      ∧ vf_geometry f
        = Some (Arr [ve_lon (entry "Rampur" "Odisha" (Num 85) (Num 20));
                     ve_lat (entry "Rampur" "Odisha" (Num 85) (Num 20))]).
Proof.
  apply (village_entries_come_from_files two_states_disk _ _ _
           two_states_disk_loads).
  apply lookup_insert_eq.
Defined.

Lemma village_last_feature_wins_witness :
  (<["Rampur"%string := entry "Rampur" "Odisha" (Num 85) (Num 20)]>
     (<["Rampur"%string
          := entry "Rampur" "Madhya Pradesh" (Num 78) (Num 23)]> ∅)
   : gmap string village_entry) !! "Rampur"%string
  = Some {| ve_village := "Rampur"; ve_state := "Odisha";
            ve_lon := Num 85; ve_lat := Num 20 |}.
Proof.
  apply (village_last_feature_wins two_states_disk
           [("Madhya Pradesh"%string,
             {| vf_name := Some "Rampur"%string;
                vf_geometry := Some (Arr [Num 78; Num 23]) |})]
           [("Odisha"%string,
             {| vf_name := None;
                vf_geometry := Some (Arr [Num 86; Num 21]) |})]
           "Odisha" "Rampur"
           {| vf_name := Some "Rampur"%string;
              vf_geometry := Some (Arr [Num 85; Num 20]) |}
           (Num 85) (Num 20)).
  - reflexivity.
  - reflexivity.
  - discriminate.
  - reflexivity.
  - intros st' f' Hin. apply list_elem_of_singleton in Hin.
    injection Hin as -> ->. discriminate.
  - exact two_states_disk_loads.
Defined.

(** ** From the files to the answers *)

Lemma load_water_all_missing (files : list (option (list feature))) :
  (∀ file, file ∈ files → file = None) → load_water_bodies files = Ok [].
Proof.
  unfold load_water_bodies. generalize (@nil water_body).
  induction files as [| file files IH]; intros w H; [done |].
  rewrite (H file) by apply list_elem_of_here. cbn [for_each].
  change (load_water_file w None) with (Ok w). simpl.
  apply IH. intros file' Hin. apply H. by apply list_elem_of_further.
Qed.

Lemma analyze_no_village (water : list water_body) recs : ∀ acc,
  for_each (analyze_record {| fra_data := ∅; water_body_locations := water |})
    recs acc
  = Ok (acc ++ ((λ rec, {| village := name rec;
                           recommendation := survey_message;
                           distance_to_water := NA |}) <$> recs)).
Proof.
  induction recs as [| rec recs IH]; intros acc.
  - by rewrite app_nil_r.
  - cbn [for_each].
    rewrite (analyze_record_ok _ acc rec survey_message NA).
    + cbn [mbind result_bind]. rewrite IH, <- app_assoc. done.
    + apply recommendation_unregistered. destruct (name rec); [| done].
      apply lookup_empty.
Qed.

(** X23. With none of the eight files on the disk the load succeeds and leaves
    both collections empty, and every record of every batch is answered
    with the field-survey message and "N/A". *)
Theorem startup_without_files (d : disk) (recs : list request_record) :
  (∀ file_path, village_files d file_path = None) →
  (∀ file_path, water_files d file_path = None) →
  load_data d = Ok (∅, [])
  ∧ analyze {| fra_data := ∅; water_body_locations := [] |} (Some recs)
    = Success ((λ rec, {| village := name rec;
                          recommendation := survey_message;
                          distance_to_water := NA |}) <$> recs).
Proof.
  intros Hv Hw. split.
  - unfold load_data, load_villages, VILLAGE_FILES.
    cbn [for_each]. rewrite !Hv. cbn [load_village_file mbind result_bind].
    rewrite load_water_all_missing; [done |].
    intros file Hin. apply list_elem_of_fmap in Hin as ([p st] & -> & _).
    apply Hw.
  - unfold analyze. cbn [default from_option Datatypes.id].
    by rewrite analyze_no_village.
Qed.

Lemma startup_without_files_witness :
  load_data {| village_files := λ _, None; water_files := λ _, None |}
  = Ok (∅, [])
  ∧ analyze {| fra_data := ∅; water_body_locations := [] |}
      (Some [{| name := Some "Rampur"%string |}; {| name := None |}])
    = Success ((λ rec, {| village := name rec;
                          recommendation := survey_message;
                          distance_to_water := NA |})
               <$> [{| name := Some "Rampur"%string |}; {| name := None |}]).
Proof.
  apply (startup_without_files
           {| village_files := λ _, None; water_files := λ _, None |});
    reflexivity.
Defined.


(** * When haversine returns *)

(** ** haversine: the domain of the square roots *)

Lemma math_sqrt_inv x y : math_sqrt x = Ok y → 0 <= x ∧ y = sqrt x.
Proof.
  unfold math_sqrt. destruct (Rle_dec 0 x); [| discriminate].
  intros [= <-]. done.
Qed.

Lemma math_sqrt_negative x : x < 0 → math_sqrt x = Raise ValueError.
Proof. intros H. unfold math_sqrt. destruct (Rle_dec 0 x); [lra | done]. Qed.

Lemma haversine_from_above_one a : 1 < a → haversine_from a = Raise ValueError.
Proof.
  intros Ha. unfold haversine_from.
  rewrite (math_sqrt_nonneg a) by lra. cbn [mbind result_bind].
  rewrite (math_sqrt_negative (1 - a)) by lra. reflexivity.
Qed.

(** What haversine returns, when it returns, is not negative and not above
    half the circumference. *)
Lemma haversine_inv lon1 lat1 lon2 lat2 d :
  haversine lon1 lat1 lon2 lat2 = Ok d → 0 <= d <= R_earth * PI.
Proof.
  unfold haversine. cbv zeta. intros H.
  apply bind_Ok in H as (sa & Hsa & H). apply bind_Ok in H as (sb & Hsb & H).
  apply math_sqrt_inv in Hsa as [_ ->]. apply math_sqrt_inv in Hsb as [_ ->].
  injection H as <-.
  match goal with
  | |- context [atan2 (sqrt ?a) (sqrt ?b)] =>
      pose proof (atan2_quadrant1 (sqrt a) (sqrt b) (sqrt_pos _) (sqrt_pos _))
        as [Hlo Hhi]
  end.
  unfold R_earth. split; nra.
Qed.

(** C8 (not met).  haversine is lines 59-60 applied to the quantity [a] of
    line 58.  At the antipodal pair (0, 8), (180, -8) that quantity is
    exactly 1, the edge of the domain of the second square root, and lines
    59-60 raise [ValueError] for every [a] above 1, whatever the excess:
    for the double 1.0000000000000002 in particular. *)
Theorem haversine_raises_above_one :
  (∀ lon1 lat1 lon2 lat2 : R,
     haversine lon1 lat1 lon2 lat2
     = haversine_from
         (hav (radians lon1) (radians lat1) (radians lon2) (radians lat2)))
  ∧ hav (radians 0) (radians 8) (radians 180) (radians (-8)) = 1
  ∧ haversine_from 1.0000000000000002 = Raise ValueError
  ∧ ∀ a : R, 1 < a → haversine_from a = Raise ValueError.
Proof.
  split; [reflexivity |]. split.
  - unfold hav. rewrite radians_180.
    replace (radians (-8)) with (- radians 8) by (unfold radians; lra).
    replace (radians 0) with 0 by (unfold radians; ring).
    replace ((- radians 8 - radians 8) / 2) with (- radians 8) by lra.
    replace ((PI - 0) / 2) with (PI / 2) by lra.
    rewrite sin_neg, cos_neg, sin_PI2.
    pose proof (sin2_cos2 (radians 8)) as E. unfold Rsqr in E. nra.
  - split; [apply haversine_from_above_one; lra |].
    exact haversine_from_above_one.
Qed.

(** X2. Whenever haversine returns, the distance is at least 0 and less
    than 20016 km (half the circumference of the sphere is 6371 * PI). *)
Theorem haversine_at_most_half_turn (lon1 lat1 lon2 lat2 d : R) :
  haversine lon1 lat1 lon2 lat2 = Ok d → 0 <= d < 20016.
Proof.
  intros H. apply haversine_inv in H as [Hlo Hhi].
  pose proof PI_bounds as [_ Hpi]. unfold R_earth in Hhi. split; lra.
Qed.

Lemma haversine_at_most_half_turn_witness :
  0 <= R_earth * radians (Rabs (21 - 20)) < 20016.
Proof.
  apply (haversine_at_most_half_turn 85 20 85 21).
  rewrite haversine_total. f_equal. apply haversine_km_meridian.
  rewrite Rabs_pos_eq; lra.
Defined.

(** ** The scan *)

Section Scan.

(** The query point. *)
Variables lon lat : R.

(** One turn of the loop, when haversine has returned [x]. *)
Lemma nearer_step m w x :
  haversine lon lat (wb_lon w) (wb_lat w) = Ok x →
  nearer lon lat m w = Ok (if lt_distance x m then Fin x else m).
Proof. intros H. unfold nearer. rewrite H. reflexivity. Qed.

(** When a turn of the loop returns, haversine has returned. *)
Lemma nearer_inv m w m' :
  nearer lon lat m w = Ok m' →
  ∃ x, haversine lon lat (wb_lon w) (wb_lat w) = Ok x
       ∧ m' = if lt_distance x m then Fin x else m.
Proof.
  unfold nearer. intros H. apply bind_Ok in H as (x & Hx & H).
  injection H as <-. eauto.
Qed.

(** The scan from [m] over [ws] returns when haversine returns on every
    point of [ws]. *)
Lemma scan_returns ws : ∀ m,
  (∀ p, p ∈ ws → ∃ x, haversine lon lat (wb_lon p) (wb_lat p) = Ok x) →
  ∃ m', for_each (nearer lon lat) ws m = Ok m'.
Proof.
  induction ws as [| w ws IH]; intros m H; [by eexists |].
  destruct (H w (list_elem_of_here _ _)) as [x Hx].
  cbn [for_each]. rewrite (nearer_step m w x Hx). cbn [mbind result_bind].
  apply IH. intros p Hp. apply H. by apply list_elem_of_further.
Qed.

(** When the scan from [m] over [ws] returns, haversine has returned on
    every point of [ws], and the result is [m] or one of the distances
    returned, the least of them all; it is [Inf] only when there was
    nothing to compare. *)
Lemma scan_inv ws : ∀ m m',
  for_each (nearer lon lat) ws m = Ok m' →
  (∀ p, p ∈ ws → ∃ x, haversine lon lat (wb_lon p) (wb_lat p) = Ok x)
  ∧ match m' with
    | Inf => m = Inf ∧ ws = []
    | Fin r =>
        (m = Fin r
         ∨ ∃ p, p ∈ ws ∧ haversine lon lat (wb_lon p) (wb_lat p) = Ok r)
        ∧ (∀ r0, m = Fin r0 → r <= r0)
        ∧ ∀ p x, p ∈ ws →
                 haversine lon lat (wb_lon p) (wb_lat p) = Ok x → r <= x
    end.
Proof.
  induction ws as [| w ws IH]; intros m m' H.
  - injection H as <-. split; [intros p Hp; by apply elem_of_nil in Hp |].
    destruct m as [r |]; [| done].
    split; [by left |]. split; [intros r0 [= <-]; lra |].
    intros p x Hp. by apply elem_of_nil in Hp.
  - cbn [for_each] in H. apply bind_Ok in H as (m1 & H1 & H).
    apply nearer_inv in H1 as (x & Hx & ->).
    apply IH in H as [Hall H]. split.
    { intros p Hp. apply elem_of_cons in Hp as [-> | Hp]; [eauto | by apply Hall]. }
    destruct m' as [r |].
    + destruct H as (Hfrom & Hm1 & Hle).
      assert (Hrx : r <= x ∧ ∀ r0, m = Fin r0 → r <= r0).
      { destruct m as [r0 |]; simpl in Hm1.
        - destruct (Rlt_dec x r0) as [Hlt | Hge].
          + pose proof (Hm1 x eq_refl). split; [done |]. intros ? [= <-]. lra.
          + pose proof (Hm1 r0 eq_refl). split; [lra |]. by intros ? [= <-].
        - pose proof (Hm1 x eq_refl). split; [done | discriminate]. }
      destruct Hrx as [Hrx Hr0]. split; [| split; [exact Hr0 |]].
      * destruct Hfrom as [Hm | (p & Hp & Hpr)].
        -- destruct (lt_distance x m); [| by left].
           injection Hm as ->. right. exists w. split; [apply list_elem_of_here | done].
        -- right. exists p. split; [by apply list_elem_of_further | done].
      * intros p y Hp Hy. apply elem_of_cons in Hp as [-> | Hp].
        -- rewrite Hx in Hy. injection Hy as <-. exact Hrx.
        -- by apply (Hle p).
    + destruct H as [Hm1 _]. destruct m as [r0 |]; simpl in Hm1.
      * destruct (Rlt_dec x r0); discriminate.
      * discriminate.
Qed.

End Scan.

(** C3. When haversine returns for every stored point, the scan over a
    water-point sequence that is not empty returns the least of the
    distances haversine returned, and every permutation of the sequence
    gives the same result. *)
Theorem nearest_is_minimum (villages : gmap string village_info)
    (w : water_body) (ws : list water_body) (lon lat : R) :
  (∀ p, p ∈ w :: ws →
        ∃ x, haversine lon lat (wb_lon p) (wb_lat p) = Ok x) →
  (∃ r : R,
     get_nearest_water_distance
       {| fra_data := villages; water_body_locations := w :: ws |} lon lat
     = Ok (Fin r)
     ∧ (∃ p, p ∈ w :: ws ∧ haversine lon lat (wb_lon p) (wb_lat p) = Ok r)
     ∧ ∀ p x, p ∈ w :: ws →
              haversine lon lat (wb_lon p) (wb_lat p) = Ok x → r <= x)
  ∧ ∀ ws' : list water_body,
      w :: ws ≡ₚ ws' →
      get_nearest_water_distance
        {| fra_data := villages; water_body_locations := ws' |} lon lat
      = get_nearest_water_distance
          {| fra_data := villages; water_body_locations := w :: ws |} lon lat.
Proof.
  intros Hret. unfold get_nearest_water_distance. cbn [water_body_locations].
  destruct (scan_returns lon lat (w :: ws) Inf Hret) as [m E].
  pose proof (scan_inv lon lat _ _ _ E) as [_ H].
  destruct m as [r |]; [| destruct H; discriminate].
  destruct H as ([Hm | Hfrom] & _ & Hle); [discriminate |]. split.
  - exists r. done.
  - intros ws' HP. rewrite E.
    assert (Hret' : ∀ p, p ∈ ws' →
              ∃ x, haversine lon lat (wb_lon p) (wb_lat p) = Ok x)
      by (intros p Hp; apply Hret; by rewrite HP).
    destruct (scan_returns lon lat ws' Inf Hret') as [m' E'].
    pose proof (scan_inv lon lat _ _ _ E') as [_ H'].
    rewrite E'. destruct m' as [r' |].
    + destruct H' as ([Hm' | (p' & Hp' & Hr')] & _ & Hle'); [discriminate |].
      destruct Hfrom as (p & Hp & Hr).
      assert (r' <= r) by (apply (Hle' p); [by rewrite <- HP | done]).
      assert (r <= r') by (apply (Hle p'); [by rewrite HP | done]).
      do 2 f_equal. lra.
    + destruct H' as [_ ->]. apply Permutation_nil_r in HP. discriminate.
Qed.

(** The query point (85, 20), a water point on it and another one degree
    north of it. *)
Lemma nearest_is_minimum_witness :
  let ws := [{| wb_lon := 85; wb_lat := 20 |};
             {| wb_lon := 85; wb_lat := 21 |}] in
  (∃ r : R,
     get_nearest_water_distance
       {| fra_data := ∅; water_body_locations := ws |} 85 20 = Ok (Fin r)
     ∧ (∃ p, p ∈ ws ∧ haversine 85 20 (wb_lon p) (wb_lat p) = Ok r)
     ∧ ∀ p x, p ∈ ws → haversine 85 20 (wb_lon p) (wb_lat p) = Ok x → r <= x)
  ∧ ∀ ws' : list water_body,
      ws ≡ₚ ws' →
      get_nearest_water_distance
        {| fra_data := ∅; water_body_locations := ws' |} 85 20
      = get_nearest_water_distance
          {| fra_data := ∅; water_body_locations := ws |} 85 20.
Proof.
  intros ws.
  apply (nearest_is_minimum ∅ {| wb_lon := 85; wb_lat := 20 |}
           [{| wb_lon := 85; wb_lat := 21 |}] 85 20).
  intros p _. rewrite haversine_total. eauto.
Defined.

Lemma haversine_here lon lat : haversine lon lat lon lat = Ok 0.
Proof. rewrite haversine_total. f_equal. apply haversine_km_same_point. Qed.

(** The scan of the witnesses: from (85, 20) over a water point one degree
    north followed by a water point at (85, 20). *)
Lemma scan_north_then_here (villages : gmap string village_info) :
  get_nearest_water_distance
    {| fra_data := villages;
       water_body_locations := [{| wb_lon := 85; wb_lat := 21 |};
                                {| wb_lon := 85; wb_lat := 20 |}] |} 85 20
  = Ok (Fin 0).
Proof.
  unfold get_nearest_water_distance. cbn [water_body_locations for_each].
  assert (Hn : haversine 85 20 85 21 = Ok (R_earth * radians (Rabs (21 - 20)))).
  { rewrite haversine_total, haversine_km_meridian; [done |].
    rewrite Rabs_pos_eq; lra. }
  rewrite (nearer_step 85 20 Inf {| wb_lon := 85; wb_lat := 21 |} _ Hn).
  cbn [lt_distance mbind result_bind].
  rewrite (nearer_step 85 20 _ {| wb_lon := 85; wb_lat := 20 |} 0
             (haversine_here 85 20)).
  cbn [lt_distance mbind result_bind].
  destruct (Rlt_dec 0 (R_earth * radians (Rabs (21 - 20)))) as [_ | Hn0];
    [done |].
  exfalso. apply Hn0. rewrite Rabs_pos_eq by lra.
  pose proof PI_RGT_0. unfold R_earth, radians. lra.
Qed.

Lemma scan_north (villages : gmap string village_info) :
  get_nearest_water_distance
    {| fra_data := villages;
       water_body_locations := [{| wb_lon := 85; wb_lat := 21 |}] |} 85 20
  = Ok (Fin (R_earth * radians (Rabs (21 - 20)))).
Proof.
  unfold get_nearest_water_distance. cbn [water_body_locations for_each].
  unfold nearer. cbn [wb_lon wb_lat].
  rewrite haversine_total, haversine_km_meridian; [done |].
  rewrite Rabs_pos_eq; lra.
Qed.

(** X7. When the scan returns, it returns the infinite sentinel exactly
    when no water point is stored, and any other result is at least 0 and
    less than 20016 km. *)
Theorem nearest_range (st : store) (lon lat : R) (d : distance) :
  get_nearest_water_distance st lon lat = Ok d →
  (d = Inf ↔ water_body_locations st = [])
  ∧ ∀ r : R, d = Fin r → 0 <= r < 20016.
Proof.
  unfold get_nearest_water_distance. intros E.
  pose proof (scan_inv lon lat _ _ _ E) as [_ H]. split.
  - split.
    + intros ->. by destruct H.
    + intros Hnil. rewrite Hnil in E. by injection E.
  - intros r ->. destruct H as ([Hm | (p & _ & Hp)] & _); [discriminate |].
    apply haversine_inv in Hp as [Hlo Hhi].
    pose proof PI_bounds as [_ Hpi]. unfold R_earth in Hhi. split; lra.
Qed.

Lemma nearest_range_witness :
  (Fin 0 = Inf
   ↔ [{| wb_lon := 85; wb_lat := 21 |}; {| wb_lon := 85; wb_lat := 20 |}]
     = [])
  ∧ ∀ r : R, Fin 0 = Fin r → 0 <= r < 20016.
Proof.
  exact (nearest_range _ 85 20 (Fin 0) (scan_north_then_here ∅)).
Defined.

(** X8. When the scans return, storing more water points never makes the
    nearest one farther: if every point of [ws] is in [ws'], the result
    over [ws'] is not above the result over [ws]. *)
Theorem nearest_more_water_never_farther
    (villages villages' : gmap string village_info)
    (ws ws' : list water_body) (lon lat : R) (d d' : distance) :
  ws ⊆ ws' →
  get_nearest_water_distance
    {| fra_data := villages; water_body_locations := ws |} lon lat = Ok d →
  get_nearest_water_distance
    {| fra_data := villages'; water_body_locations := ws' |} lon lat = Ok d' →
  le_distance d' d.
Proof.
  unfold get_nearest_water_distance. cbn [water_body_locations].
  intros Hsub E E'.
  pose proof (scan_inv lon lat _ _ _ E) as [_ H].
  pose proof (scan_inv lon lat _ _ _ E') as [_ H'].
  destruct d as [r |]; [| by destruct d'].
  destruct H as ([Hm | (p & Hp & Hr)] & _); [discriminate |].
  apply Hsub in Hp. destruct d' as [r' |].
  - destruct H' as (_ & _ & Hle'). simpl. by apply (Hle' p).
  - destruct H' as [_ Hnil]. rewrite Hnil in Hp. by apply elem_of_nil in Hp.
Qed.

(** From (85, 20): the water point one degree north alone, then with a
    water point at (85, 20) added. *)
Lemma nearest_more_water_never_farther_witness :
  le_distance (Fin 0) (Fin (R_earth * radians (Rabs (21 - 20)))).
Proof.
  apply (nearest_more_water_never_farther ∅ ∅
           [{| wb_lon := 85; wb_lat := 21 |}]
           [{| wb_lon := 85; wb_lat := 21 |}; {| wb_lon := 85; wb_lat := 20 |}]
           85 20).
  - intros p Hp. apply list_elem_of_singleton in Hp as ->.
    apply list_elem_of_here.
  - apply scan_north.
  - apply scan_north_then_here.
Defined.

(** X9. When the scan returns and a water point is stored at the query
    point, the scan returns 0. *)
Theorem nearest_zero_at_water (st : store) (lon lat : R) :
  {| wb_lon := lon; wb_lat := lat |} ∈ water_body_locations st →
  (∃ d, get_nearest_water_distance st lon lat = Ok d) →
  get_nearest_water_distance st lon lat = Ok (Fin 0).
Proof.
  unfold get_nearest_water_distance. intros Hw [d E]. rewrite E.
  pose proof (scan_inv lon lat _ _ _ E) as [_ H].
  destruct d as [r |].
  - destruct H as ([Hm | (p & _ & Hp)] & _ & Hle); [discriminate |].
    apply haversine_inv in Hp as [Hlo _].
    pose proof (Hle _ 0 Hw (haversine_here lon lat)). do 2 f_equal. lra.
  - destruct H as [_ Hnil]. rewrite Hnil in Hw. by apply elem_of_nil in Hw.
Qed.

(** From (85, 20): a water point one degree north, then one at (85, 20). *)
Lemma nearest_zero_at_water_witness :
  get_nearest_water_distance
    {| fra_data := ∅;
       water_body_locations := [{| wb_lon := 85; wb_lat := 21 |};
                                {| wb_lon := 85; wb_lat := 20 |}] |} 85 20
  = Ok (Fin 0).
Proof.
  apply nearest_zero_at_water.
  - apply list_elem_of_further, list_elem_of_here.
  - exists (Fin 0). apply scan_north_then_here.
Defined.

(** ** The recommendation of a registered village *)

(** For a registered village the result is made from what the scan
    returns, and the scan's exception is the function's. *)
Lemma recommendation_of_scan st n info :
  n ≫= (λ k, fra_data st !! k) = Some info →
  generate_water_recommendation st n
  = get_nearest_water_distance st (vi_lon info) (vi_lat info)
    ≫= λ d, Ok (classify d, Number d).
Proof. intros H. unfold generate_water_recommendation. by rewrite H. Qed.

(** C10. The distance of a result is the string "N/A" exactly when the name
    is not a key of the village mapping.  For a registered village, when
    the scan returns, the distance is the number the scan returned (the
    infinite sentinel when no water point is stored), never "N/A"; when
    the scan raises, so does the recommendation. *)
Theorem NA_iff_unregistered (st : store) (n : option string) :
  ((∃ m, generate_water_recommendation st n = Ok (m, NA))
   ↔ n ≫= (λ k, fra_data st !! k) = None)
  ∧ ∀ info : village_info,
      n ≫= (λ k, fra_data st !! k) = Some info →
      (∀ d : distance,
         get_nearest_water_distance st (vi_lon info) (vi_lat info) = Ok d →
         generate_water_recommendation st n = Ok (classify d, Number d)
         ∧ (water_body_locations st = [] → d = Inf))
      ∧ ∀ e : exn,
          get_nearest_water_distance st (vi_lon info) (vi_lat info) = Raise e →
          generate_water_recommendation st n = Raise e.
Proof.
  split.
  - split.
    + intros [m Hm].
      destruct (n ≫= (λ k, fra_data st !! k)) as [info |] eqn:H; [| done].
      rewrite (recommendation_of_scan st n info H) in Hm.
      apply bind_Ok in Hm as (d & _ & Hm). discriminate Hm.
    + intros H. exists survey_message. by apply recommendation_unregistered.
  - intros info H. rewrite (recommendation_of_scan st n info H). split.
    + intros d E. rewrite E. split; [done |].
      intros Hw. unfold get_nearest_water_distance in E. rewrite Hw in E.
      by injection E.
    + intros e E. by rewrite E.
Qed.

(** "Rampur" is registered at (85, 20), with a water point one degree north
    and one at (85, 20); "rampur" is not registered. *)
Lemma NA_iff_unregistered_witness :
  let info := {| vi_village := "Rampur"; vi_state := "Odisha";
                 vi_lon := 85; vi_lat := 20 |} in
  let st := {| fra_data := {["Rampur"%string := info]};
               water_body_locations := [{| wb_lon := 85; wb_lat := 21 |};
                                        {| wb_lon := 85; wb_lat := 20 |}] |} in
  generate_water_recommendation st (Some "Rampur"%string)
  = Ok (classify (Fin 0), Number (Fin 0))
  ∧ ∃ m, generate_water_recommendation st (Some "rampur"%string) = Ok (m, NA).
Proof.
  intros info st. split.
  - destruct (NA_iff_unregistered st (Some "Rampur"%string)) as [_ H].
    destruct (H info (lookup_singleton_eq _ _)) as [Hok _].
    destruct (Hok (Fin 0) (scan_north_then_here _)) as [E _]. exact E.
  - destruct (NA_iff_unregistered st (Some "rampur"%string)) as [[_ H] _].
    apply H. apply lookup_singleton_ne. discriminate.
Defined.

(** X11. When the recommendation of a registered village returns and a
    water point is stored for which haversine returns [x <= 1000], the
    distance returned is a number between 0 and [x] and the message is the
    tier of that number, not the critical one; it is the adequate one when
    [x <= 10]. *)
Theorem water_within_reach (st : store) (n : string) (info : village_info)
    (w : water_body) (x : R) (m : message) (dw : distance_field) :
  fra_data st !! n = Some info →
  w ∈ water_body_locations st →
  haversine (vi_lon info) (vi_lat info) (wb_lon w) (wb_lat w) = Ok x →
  x <= 1000 →
  generate_water_recommendation st (Some n) = Ok (m, dw) →
  ∃ r : R,
    dw = Number (Fin r) ∧ 0 <= r <= x
    ∧ m = classify (Fin r)
    ∧ m ≠ critical_message
    ∧ (x <= 10 → m = adequate_message r).
Proof.
  intros Hn Hw Hx Hx1000 Hgen.
  rewrite (recommendation_of_scan st (Some n) info Hn) in Hgen.
  apply bind_Ok in Hgen as (d & E & Hgen). injection Hgen as <- <-.
  unfold get_nearest_water_distance in E.
  pose proof (scan_inv _ _ _ _ _ E) as [_ H].
  destruct d as [r |].
  - destruct H as ([Hm | (p & _ & Hp)] & _ & Hle); [discriminate |].
    apply haversine_inv in Hp as [Hlo _].
    pose proof (Hle w x Hw Hx) as Hrx.
    exists r. split; [done |]. split; [lra |]. split; [done |]. split.
    + pose proof (tiers_distinct r r r) as (Hcs & Hcm & Hca & _).
      unfold classify. destruct (Rlt_dec 1000 r); [lra |].
      destruct (Rlt_dec 100 r); [congruence |].
      destruct (Rlt_dec 10 r); congruence.
    + intros Hx10. apply classify_adequate. lra.
  - destruct H as [_ Hnil]. rewrite Hnil in Hw. by apply elem_of_nil in Hw.
Qed.

Lemma water_within_reach_witness :
  ∃ r : R,
    Number (Fin 0) = Number (Fin r)
    ∧ 0 <= r <= R_earth * radians (Rabs (21 - 20))
    ∧ classify (Fin 0) = classify (Fin r)
    ∧ classify (Fin 0) ≠ critical_message
    ∧ (R_earth * radians (Rabs (21 - 20)) <= 10
       → classify (Fin 0) = adequate_message r).
Proof.
  pose (info := {| vi_village := "Rampur"; vi_state := "Odisha";
                   vi_lon := 85; vi_lat := 20 |}).
  pose (st := {| fra_data := {["Rampur"%string := info]};
                 water_body_locations := [{| wb_lon := 85; wb_lat := 21 |};
                                          {| wb_lon := 85; wb_lat := 20 |}] |}).
  apply (water_within_reach st "Rampur" info {| wb_lon := 85; wb_lat := 21 |}
           (R_earth * radians (Rabs (21 - 20)))
           (classify (Fin 0)) (Number (Fin 0))).
  - apply lookup_singleton_eq.
  - apply list_elem_of_here.
  - cbn [vi_lon vi_lat info wb_lon wb_lat].
    rewrite haversine_total, haversine_km_meridian; [done |].
    rewrite Rabs_pos_eq; lra.
  - rewrite Rabs_pos_eq by lra. pose proof PI_bounds.
    unfold R_earth, radians. lra.
  - rewrite (recommendation_of_scan st (Some "Rampur"%string) info
               (lookup_singleton_eq _ _)).
    cbn [vi_lon vi_lat info]. unfold st.
    by rewrite scan_north_then_here.
Defined.

(** X12. With a single water point stored, a registered village is
    answered with the value haversine returns for that point and with the
    tier of that value. *)
Theorem village_and_single_water (st : store) (n : string)
    (info : village_info) (w : water_body) (km : R) :
  fra_data st !! n = Some info →
  water_body_locations st = [w] →
  haversine (vi_lon info) (vi_lat info) (wb_lon w) (wb_lat w) = Ok km →
  generate_water_recommendation st (Some n)
  = Ok (classify (Fin km), Number (Fin km)).
Proof.
  intros Hn Hw Hkm.
  rewrite (recommendation_of_scan st (Some n) info Hn).
  unfold get_nearest_water_distance. rewrite Hw. cbn [for_each].
  rewrite (nearer_step _ _ Inf w km Hkm). reflexivity.
Qed.

(** The village at (0, 0) with the only water point at longitude 0 and
    latitude 0.09: the distance, 6371 * 0.09 * PI / 180, is above 10, and
    the message is the moderate one. *)
Lemma village_and_single_water_witness :
  let info := {| vi_village := "Origin"; vi_state := "Odisha";
                 vi_lon := 0; vi_lat := 0 |} in
  let st := {| fra_data := {["Origin"%string := info]};
               water_body_locations := [{| wb_lon := 0; wb_lat := 0.09 |}] |} in
  let km := R_earth * radians 0.09 in
  10 < km < 10.01
  ∧ generate_water_recommendation st (Some "Origin"%string)
    = Ok (moderate_message km, Number (Fin km)).
Proof.
  intros info st km.
  assert (Hkm : 10 < km < 10.01).
  { pose proof PI_bounds. unfold km, R_earth, radians. lra. }
  split; [exact Hkm |].
  assert (Hz : Rabs (0.09 - 0) = 0.09) by (rewrite Rabs_pos_eq; lra).
  assert (Hh : haversine 0 0 0 0.09 = Ok km).
  { rewrite haversine_total, haversine_km_meridian by (rewrite Hz; lra).
    by rewrite Hz. }
  rewrite (village_and_single_water st "Origin" info
             {| wb_lon := 0; wb_lat := 0.09 |} km
             (lookup_singleton_eq _ _) eq_refl Hh).
  rewrite classify_moderate by lra. reflexivity.
Defined.

(** ** The batch *)

Section Batch.

(** The call of line 151. *)
Variable gen : option string → result (message * distance_field).

Lemma analyze_record_with_inv acc rec acc' :
  analyze_record_with gen acc rec = Ok acc' →
  ∃ m d, gen (name rec) = Ok (m, d)
         ∧ acc' = acc ++ [{| village := name rec; recommendation := m;
                             distance_to_water := d |}].
Proof.
  unfold analyze_record_with. intros H.
  apply bind_Ok in H as ([m d] & Hg & H). injection H as <-. eauto.
Qed.

Lemma analyze_record_with_ok acc rec m d :
  gen (name rec) = Ok (m, d) →
  analyze_record_with gen acc rec
  = Ok (acc ++ [{| village := name rec; recommendation := m;
                   distance_to_water := d |}]).
Proof. intros H. unfold analyze_record_with. by rewrite H. Qed.

Lemma analyze_record_with_raise acc rec e :
  gen (name rec) = Raise e → analyze_record_with gen acc rec = Raise e.
Proof. intros H. unfold analyze_record_with. by rewrite H. Qed.

(** The results of the loop are appended to what was there: from another
    start the loop appends the same records. *)
Lemma loop_appends recs : ∀ acc res,
  for_each (analyze_record_with gen) recs acc = Ok res →
  ∃ new, res = acc ++ new
         ∧ ∀ acc', for_each (analyze_record_with gen) recs acc'
                   = Ok (acc' ++ new).
Proof.
  induction recs as [| rec recs IH]; intros acc res H.
  - injection H as <-. exists []. split; [by rewrite app_nil_r |].
    intros acc'. by rewrite app_nil_r.
  - cbn [for_each] in H. apply bind_Ok in H as (acc1 & H1 & H).
    apply analyze_record_with_inv in H1 as (m & d & Hg & ->).
    apply IH in H as (new & -> & Hnew).
    eexists (_ :: new). split; [by rewrite <- app_assoc |].
    intros acc'. cbn [for_each].
    rewrite (analyze_record_with_ok acc' rec m d Hg).
    cbn [mbind result_bind]. rewrite Hnew, <- app_assoc. done.
Qed.

Lemma analyze_with_app recs1 recs2 res1 res2 :
  analyze_with gen (Some recs1) = Success res1 →
  analyze_with gen (Some recs2) = Success res2 →
  analyze_with gen (Some (recs1 ++ recs2)) = Success (res1 ++ res2).
Proof.
  unfold analyze_with. cbn [default from_option Datatypes.id].
  destruct (for_each _ recs1 []) as [r1 |] eqn:E1; [| discriminate].
  destruct (for_each _ recs2 []) as [r2 |] eqn:E2; [| discriminate].
  intros [= <-] [= <-]. rewrite for_each_app, E1. cbn [mbind result_bind].
  apply loop_appends in E2 as (new & -> & Hnew). by rewrite Hnew.
Qed.

(** The first record on which the call raises ends the loop with that
    exception, whatever was collected. *)
Lemma loop_raises before rec after e : ∀ acc,
  Forall (λ r, ∃ ok, gen (name r) = Ok ok) before →
  gen (name rec) = Raise e →
  for_each (analyze_record_with gen) (before ++ rec :: after) acc = Raise e.
Proof.
  induction before as [| r before IH]; intros acc Hb He.
  - cbn [app for_each]. by rewrite (analyze_record_with_raise acc rec e He).
  - apply Forall_cons in Hb as [[[m d] Hr] Hb].
    cbn [app for_each]. rewrite (analyze_record_with_ok acc r m d Hr).
    cbn [mbind result_bind]. by apply IH.
Qed.

End Batch.

Lemma analyze_is_with st villages :
  analyze st villages
  = analyze_with (generate_water_recommendation st) villages.
Proof. reflexivity. Qed.

(** C6 (not met).  [analyze] is its loop run with
    [generate_water_recommendation] as the call of line 151, and the loop
    sits in one [try]: when the call raises on one record, the answer is
    the error response and holds no result, neither for the records before
    it, on which the call returned, nor for those after it. *)
Theorem analyze_one_raise_discards_all
    (gen : option string → result (message * distance_field))
    (before after : list request_record) (rec : request_record) (e : exn) :
  Forall (λ r, ∃ ok, gen (name r) = Ok ok) before →
  gen (name rec) = Raise e →
  analyze_with gen (Some (before ++ rec :: after)) = Failure e
  ∧ ∀ (st : store) (villages : option (list request_record)),
      analyze st villages
      = analyze_with (generate_water_recommendation st) villages.
Proof.
  intros Hb He. split; [| reflexivity].
  unfold analyze_with. cbn [default from_option Datatypes.id].
  by rewrite (loop_raises gen before rec after e [] Hb He).
Qed.

(** The call returns the field-survey answer, except for the name
    "Antipode", on which it raises as [math.sqrt] does. *)
Lemma analyze_one_raise_discards_all_witness :
  let gen := λ n : option string,
    if decide (n = Some "Antipode"%string) then Raise ValueError
    else Ok (survey_message, NA) in
  analyze_with gen (Some ([{| name := Some "Elsewhere"%string |}]
                          ++ {| name := Some "Antipode"%string |}
                          :: [{| name := None |}]))
  = Failure ValueError
  ∧ ∀ (st : store) (villages : option (list request_record)),
      analyze st villages
      = analyze_with (generate_water_recommendation st) villages.
Proof.
  intros gen.
  apply (analyze_one_raise_discards_all gen).
  - constructor; [| constructor]. by exists (survey_message, NA).
  - reflexivity.
Defined.

(** C7. A name that is not a key of the village mapping gets the distance
    "N/A" and the field-survey message, and when the records before it and
    the records after it are answered as batches of their own, with [rb]
    and [ra], the batch that holds them all is answered with [rb], the
    field-survey record and [ra]: the records around get the results they
    get without it.  Keys are compared as strings, so a name differing from
    a stored one in the case of a letter is another name. *)
Theorem unknown_village_is_NA (st : store) (n : string)
    (before after : list request_record) (rb ra : list result_record) :
  fra_data st !! n = None →
  analyze st (Some before) = Success rb →
  analyze st (Some after) = Success ra →
  generate_water_recommendation st (Some n) = Ok (survey_message, NA)
  ∧ analyze st (Some (before ++ {| name := Some n |} :: after))
    = Success (rb ++ {| village := Some n;
                        recommendation := survey_message;
                        distance_to_water := NA |} :: ra).
Proof.
  intros Hn Hb Ha.
  assert (E : generate_water_recommendation st (Some n)
              = Ok (survey_message, NA))
    by (by apply recommendation_unregistered).
  split; [exact E |].
  rewrite analyze_is_with in *.
  apply analyze_with_app; [exact Hb |].
  change (?x :: after) with ([x] ++ after).
  change (?x :: ra) with ([x] ++ ra).
  apply analyze_with_app; [| exact Ha].
  unfold analyze_with, analyze_record_with.
  cbn [default from_option Datatypes.id for_each name].
  by rewrite E.
Qed.

(** The mapping holds "Rampur" only, at (85, 20), with a water point one
    degree north and one at (85, 20); the batch asks for "Rampur", then
    "rampur", then "Rampur" again. *)
Lemma unknown_village_is_NA_witness :
  let info := {| vi_village := "Rampur"; vi_state := "Odisha";
                 vi_lon := 85; vi_lat := 20 |} in
  let st := {| fra_data := {["Rampur"%string := info]};
               water_body_locations := [{| wb_lon := 85; wb_lat := 21 |};
                                        {| wb_lon := 85; wb_lat := 20 |}] |} in
  let found := {| village := Some "Rampur"%string;
                  recommendation := adequate_message 0;
                  distance_to_water := Number (Fin 0) |} in
  generate_water_recommendation st (Some "rampur"%string)
  = Ok (survey_message, NA)
  ∧ analyze st (Some ([{| name := Some "Rampur"%string |}]
                      ++ {| name := Some "rampur"%string |}
                      :: [{| name := Some "Rampur"%string |}]))
    = Success ([found] ++ {| village := Some "rampur"%string;
                             recommendation := survey_message;
                             distance_to_water := NA |} :: [found]).
Proof.
  intros info st found.
  assert (Hfound : analyze st (Some [{| name := Some "Rampur"%string |}])
                   = Success [found]).
  { unfold analyze, analyze_record.
    cbn [default from_option Datatypes.id for_each name].
    rewrite (recommendation_of_scan st (Some "Rampur"%string) info
               (lookup_singleton_eq _ _)).
    cbn [vi_lon vi_lat info]. unfold st at 1.
    rewrite scan_north_then_here. cbn [mbind result_bind].
    rewrite classify_adequate by lra. reflexivity. }
  apply (unknown_village_is_NA st "rampur" _ _ [found] [found]);
    [| exact Hfound | exact Hfound].
  apply lookup_singleton_ne. discriminate.
Defined.

(** ** load_data, again *)

Lemma load_village_rows_two_items rows : ∀ fra fra',
  for_each load_village_row rows fra = Ok fra' →
  ∀ st f k c, (st, f) ∈ rows → vf_name f = Some k → k ≠ ""%string →
              vf_geometry f = Some c → truthy c = true →
              ∃ lon lat, c = Arr [lon; lat].
Proof.
  induction rows as [| [st0 f0] rows IH]; intros fra fra' H st f k c Hin.
  - by apply elem_of_nil in Hin.
  - cbn [for_each] in H. apply bind_Ok in H as (fra1 & H1 & H).
    apply elem_of_cons in Hin as [[= -> ->] | Hin]; [| by eapply IH].
    intros Hk Hne Hc Ht.
    destruct (load_village_row_cases fra st0 f0)
      as [(k' & c' & Hk' & _ & Hc' & _ & [(lon & lat & -> & _) | (e & _ & E)])
         | [_ Hskip]].
    + rewrite Hc in Hc'. injection Hc' as ->. eauto.
    + rewrite E in H1. discriminate.
    + rewrite (Hskip k c Hk Hc Hne) in Ht. discriminate.
Qed.

(** X22. When the village load succeeds, every feature of the files that
    has a name, not empty, and coordinates that are not empty or zero has
    exactly two items as coordinates: a feature with an altitude, or with
    a number as coordinates, does not let the load succeed. *)
Theorem village_load_needs_two_items (d : disk)
    (fra : gmap string village_entry) (st k : string) (f : village_feature)
    (c : coords) :
  load_villages d = Ok fra →
  (st, f) ∈ village_rows d →
  vf_name f = Some k → k ≠ ""%string →
  vf_geometry f = Some c → truthy c = true →
  ∃ lon lat, c = Arr [lon; lat].
Proof.
  rewrite load_villages_flat. intros H.
  exact (load_village_rows_two_items _ _ _ H st f k c).
Qed.

Lemma village_load_needs_two_items_witness :
  ∃ lon lat, Arr [Num 85; Num 20] = Arr [lon; lat].
Proof.
  apply (village_load_needs_two_items two_states_disk _ "Odisha" "Rampur"
           {| vf_name := Some "Rampur"%string;
              vf_geometry := Some (Arr [Num 85; Num 20]) |}
           (Arr [Num 85; Num 20]) two_states_disk_loads).
  - apply list_elem_of_further, list_elem_of_here.
  - reflexivity.
  - discriminate.
  - reflexivity.
  - reflexivity.
Defined.

(** X24. From the file to the answer: when the load gives villages with
    numbers as coordinates, a name whose last feature in the files has the
    coordinates [[lon, lat]] is answered, whenever the scan at [(lon, lat)]
    over the water points loaded returns, with what the scan returned and
    with the tier of that distance. *)
Theorem loaded_village_is_answered (d : disk)
    (villages : gmap string village_info) (water : list water_body)
    (before after : list (string * village_feature))
    (st k : string) (f : village_feature) (lon lat : R) (dist : distance) :
  load_data d = Ok (entry_of <$> villages, water) →
  village_rows d = before ++ (st, f) :: after →
  vf_name f = Some k → k ≠ ""%string →
  vf_geometry f = Some (Arr [Num lon; Num lat]) →
  (∀ st' f', (st', f') ∈ after → vf_name f' ≠ Some k) →
  let store := {| fra_data := villages; water_body_locations := water |} in
  get_nearest_water_distance store lon lat = Ok dist →
  generate_water_recommendation store (Some k)
  = Ok (classify dist, Number dist).
Proof.
  intros Hload Hrows Hn Hne Hg Hafter store Hscan.
  unfold load_data in Hload.
  apply bind_Ok in Hload as (fra & Hfra & Hload).
  apply bind_Ok in Hload as (w & _ & Hload). injection Hload as -> ->.
  rewrite load_villages_flat in Hfra.
  pose proof (last_row_wins _ before after st k f (Num lon) (Num lat) _
                Hrows Hn Hne Hg Hafter Hfra) as Hk.
  rewrite lookup_fmap in Hk.
  destruct (villages !! k) as [info |] eqn:Hinfo; [| discriminate].
  injection Hk as _ _ Hlon Hlat.
  rewrite (recommendation_of_scan store (Some k) info Hinfo).
  rewrite Hlon, Hlat, Hscan. reflexivity.
Qed.

(** The load of [village_and_pond_disk]: one village, and the centroid of
    the pond, which is the village's place. *)
Lemma village_and_pond_disk_loads :
  load_data village_and_pond_disk
  = Ok (entry_of <$> {["Rampur"%string
                         := {| vi_village := "Rampur"; vi_state := "Odisha";
                               vi_lon := 85; vi_lat := 20 |}]},
        [{| wb_lon := 85; wb_lat := 20 |}]).
Proof.
  unfold load_data.
  assert (Hv : load_villages village_and_pond_disk
               = Ok {["Rampur"%string
                        := entry "Rampur" "Odisha" (Num 85) (Num 20)]})
    by reflexivity.
  rewrite Hv. cbn [mbind result_bind].
  assert (Hw : load_water_bodies
                 ((λ '(file_path, _), water_files village_and_pond_disk file_path)
                  <$> WATER_FILES)
               = Ok [{| wb_lon := 85; wb_lat := 20 |}]).
  { assert (Hfiles :
      (λ '(file_path, _), water_files village_and_pond_disk file_path)
        <$> WATER_FILES
      = [None;
         Some [{| geometry :=
                    Some (Polygon [[(84, 19); (84, 21); (86, 21); (86, 19)]])
               |}];
         None; None]) by reflexivity.
    rewrite Hfiles. unfold load_water_bodies.
    cbn [for_each load_water_file mbind result_bind].
    cbn [load_water_feature geometry mbind result_bind].
    change (truthy (Polygon [[(84, 19); (84, 21); (86, 21); (86, 19)]]))
      with true.
    cbv iota. rewrite centroid_Polygon. cbn [mbind result_bind app].
    do 3 f_equal; unfold mean; simpl; lra. }
  rewrite Hw. cbn [mbind result_bind].
  by rewrite map_fmap_singleton.
Qed.

Lemma loaded_village_is_answered_witness :
  let info := {| vi_village := "Rampur"; vi_state := "Odisha";
                 vi_lon := 85; vi_lat := 20 |} in
  let store := {| fra_data := {["Rampur"%string := info]};
                  water_body_locations := [{| wb_lon := 85; wb_lat := 20 |}] |} in
  generate_water_recommendation store (Some "Rampur"%string)
  = Ok (classify (Fin 0), Number (Fin 0)).
Proof.
  intros info store.
  apply (loaded_village_is_answered village_and_pond_disk
           {["Rampur"%string := info]} [{| wb_lon := 85; wb_lat := 20 |}]
           [] [] "Odisha" "Rampur"
           {| vf_name := Some "Rampur"%string;
              vf_geometry := Some (Arr [Num 85; Num 20]) |} 85 20 (Fin 0)).
  - exact village_and_pond_disk_loads.
  - reflexivity.
  - reflexivity.
  - discriminate.
  - reflexivity.
  - intros st' f' Hin. by apply elem_of_nil in Hin.
  - unfold get_nearest_water_distance. cbn [water_body_locations for_each].
    by rewrite (nearer_step 85 20 Inf {| wb_lon := 85; wb_lat := 20 |} 0
                  (haversine_here 85 20)).
Defined.
